(** * Movie-Recommending-Chatbot: the recommendation core of [movie.py]

    A shallow embedding of [src/movie.py] and the properties of its
    specification.  Python values are an inductive type, exceptions are an
    explicit error monad, a pandas column is a list, a pandas Series is an
    association list of (label, value) rows in row order.

    Text.  A Python [str] is represented by its UTF-8 bytes as a Rocq
    [string].  [str.replace] with an ASCII pattern is exact on that
    representation.  [str.lower], [str.strip] and the tokenizer of
    scikit-learn follow the Unicode tables; they are the methods of the
    class [Unicode], and the functions of the program take an instance of
    it.  The instance [ascii_text] lowers the ASCII letters, strips the
    ASCII white space and splits at the ASCII non-word characters, which is
    what Python does on ASCII text; the sample corpora are ASCII text.

    Numbers.  The similarity scores are IEEE doubles in the program.  Every
    finite double is a rational, and the query code only compares scores, so
    the matrix a query reads is a [list (list Q)], and the engine takes the
    TF-IDF weighting and the kernel that produce it as parameters.  The
    module [Tfidf] computes them on binary64 floats as the specification
    describes them. *)

From Stdlib Require Import List String Ascii Bool Arith ZArith QArith Lia.
From Stdlib Require Import Sorted Permutation DecimalString Floats.
From Stdlib Require Uint63.
Import ListNotations.

Set Warnings "-register-all".

Local Close Scope Q_scope.

Local Open Scope list_scope.
Local Open Scope string_scope.

(* ================================================================== *)
(** ** Python values, exceptions and the [str] methods the code calls *)
(* ================================================================== *)

Module Py.

(** The exception classes the program can meet. *)
Inductive exn : Type :=
  | AttributeError
  | TypeError
  | KeyError
  | ValueError
  | IndexError.

(** A computation returns or raises. *)
Inductive result (A : Type) : Type :=
  | Ok (a : A)
  | Raise (e : exn).
Arguments Ok {A} a.
Arguments Raise {A} e.

Definition bind {A B : Type} (m : result A) (k : A -> result B) : result B :=
  match m with
  | Ok a => k a
  | Raise e => Raise e
  end.

Notation "'let*' x ':=' m 'in' k" := (bind m (fun x => k))
  (at level 10, x name, m at level 100, k at level 200).

(** A comprehension [[f i for i in l]]: left to right, the first exception
    aborts it. *)
Fixpoint mapM {A B : Type} (f : A -> result B) (l : list A) : result (list B) :=
  match l with
  | [] => Ok []
  | a :: r =>
      match f a with
      | Raise e => Raise e
      | Ok b =>
          match mapM f r with
          | Raise e => Raise e
          | Ok bs => Ok (b :: bs)
          end
      end
  end.

(** JSON-shaped Python values.  [VNaN] is the float NaN (a missing cell of a
    pandas frame, or the JSON literal NaN); any other float keeps its
    lexeme, the program never computes with it.  A dict keeps its pairs in
    insertion order. *)
Inductive value : Type :=
  | VNone
  | VNaN
  | VBool (b : bool)
  | VInt (z : Z)
  | VFloat (lexeme : string)
  | VStr (s : string)
  | VList (l : list value)
  | VDict (kv : list (string * value)).

(** A cell of a frame as [pandas.read_csv] delivers it. *)
Inductive cell : Type :=
  | CNaN
  | CStr (s : string)
  | CInt (z : Z)
  | CFloat (lexeme : string)
  | CBool (b : bool).

(** The double quote, and the string of it. *)
Definition dquote : ascii := ascii_of_N 34.
Definition dq : string := String dquote EmptyString.

Definition is_upper (c : ascii) : bool :=
  (65 <=? nat_of_ascii c)%nat && (nat_of_ascii c <=? 90)%nat.

Definition lower_char (c : ascii) : ascii :=
  if is_upper c then ascii_of_nat (nat_of_ascii c + 32) else c.

(** [s.lower()] on the ASCII letters. *)
Fixpoint lower_ascii (s : string) : string :=
  match s with
  | EmptyString => EmptyString
  | String c r => String (lower_char c) (lower_ascii r)
  end.

(** [s.replace(old, new)] for a pattern [old] of one character. *)
Fixpoint replace (old : ascii) (new : string) (s : string) : string :=
  match s with
  | EmptyString => EmptyString
  | String c r =>
      if Ascii.eqb c old then new ++ replace old new r
      else String c (replace old new r)
  end.

(** [sep.join(l)] *)
Fixpoint join (sep : string) (l : list string) : string :=
  match l with
  | [] => EmptyString
  | [s] => s
  | s :: r => s ++ sep ++ join sep r
  end.

(** [c in s] for a character. *)
Fixpoint mem_char (c : ascii) (s : string) : bool :=
  match s with
  | EmptyString => false
  | String d r => Ascii.eqb d c || mem_char c r
  end.

(** Some character of [s] satisfies [p]. *)
Fixpoint any_char (p : ascii -> bool) (s : string) : bool :=
  match s with
  | EmptyString => false
  | String d r => p d || any_char p r
  end.

(** [d.get(k)]: the value bound last wins, as in a dict built from pairs. *)
Fixpoint dict_get (k : string) (kv : list (string * value)) : option value :=
  match kv with
  | [] => None
  | (k', v) :: r =>
      match dict_get k r with
      | Some w => Some w
      | None => if String.eqb k' k then Some v else None
      end
  end.

End Py.
Export Py.

(* ================================================================== *)
(** ** [json.loads] (CPython's [json.decoder] and [json.scanner])       *)
(* ================================================================== *)

Module Json.

(** Outcome of a scanner: the value and the unread text, a decode error
    ([json.JSONDecodeError]), or the recursion budget of the model spent. *)
Inductive scan (A : Type) : Type :=
  | Scanned (a : A) (rest : string)
  | Invalid
  | OutOfFuel.
Arguments Scanned {A} a rest.
Arguments Invalid {A}.
Arguments OutOfFuel {A}.

(** [WHITESPACE = re.compile(r'[ \t\n\r]*')] *)
Definition is_ws (c : ascii) : bool :=
  match N_of_ascii c with
  | 32%N | 9%N | 10%N | 13%N => true
  | _ => false
  end.

Fixpoint skip_ws (s : string) : string :=
  match s with
  | EmptyString => EmptyString
  | String c r => if is_ws c then skip_ws r else s
  end.

Definition is_digit (c : ascii) : bool :=
  (48 <=? nat_of_ascii c)%nat && (nat_of_ascii c <=? 57)%nat.

Definition digit_val (c : ascii) : Z := Z.of_nat (nat_of_ascii c - 48).

(** The longest prefix of digits and what follows it. *)
Fixpoint span_digits (s : string) : string * string :=
  match s with
  | EmptyString => (EmptyString, EmptyString)
  | String c r =>
      if is_digit c then
        let '(d, r') := span_digits r in (String c d, r')
      else (EmptyString, s)
  end.

Fixpoint decimal (acc : Z) (s : string) : Z :=
  match s with
  | EmptyString => acc
  | String c r => decimal (10 * acc + digit_val c)%Z r
  end.

Definition hex_val (c : ascii) : option N :=
  let n := N_of_ascii c in
  if ((48 <=? n) && (n <=? 57))%N then Some (n - 48)%N
  else if ((97 <=? n) && (n <=? 102))%N then Some (n - 87)%N
  else if ((65 <=? n) && (n <=? 70))%N then Some (n - 55)%N
  else None.

Definition hex4 (a b c d : ascii) : option N :=
  match hex_val a, hex_val b, hex_val c, hex_val d with
  | Some x, Some y, Some z, Some w => Some (((x * 16 + y) * 16 + z) * 16 + w)%N
  | _, _, _, _ => None
  end.

Definition byte (n : N) : ascii := ascii_of_N n.

(** The UTF-8 bytes of a code point (a lone surrogate takes the three-byte
    form). *)
Definition utf8 (cp : N) : string :=
  if (cp <? 128)%N then String (byte cp) EmptyString
  else if (cp <? 2048)%N then
    String (byte (192 + cp / 64)) (String (byte (128 + cp mod 64)) EmptyString)
  else if (cp <? 65536)%N then
    String (byte (224 + cp / 4096))
      (String (byte (128 + (cp / 64) mod 64))
         (String (byte (128 + cp mod 64)) EmptyString))
  else
    String (byte (240 + cp / 262144))
      (String (byte (128 + (cp / 4096) mod 64))
         (String (byte (128 + (cp / 64) mod 64))
            (String (byte (128 + cp mod 64)) EmptyString))).

(** The one-character escapes of [BACKSLASH]. *)
Definition simple_escape (c : ascii) : option ascii :=
  match N_of_ascii c with
  | 34%N => Some (byte 34)   (* quote *)
  | 92%N => Some (byte 92)   (* backslash *)
  | 47%N => Some (byte 47)   (* slash *)
  | 98%N => Some (byte 8)    (* b: backspace *)
  | 102%N => Some (byte 12)  (* f: form feed *)
  | 110%N => Some (byte 10)  (* n: line feed *)
  | 114%N => Some (byte 13)  (* r: carriage return *)
  | 116%N => Some (byte 9)   (* t: tab *)
  | _ => None
  end.

Definition is_high_surrogate (n : N) : bool := ((55296 <=? n) && (n <=? 56319))%N.
Definition is_low_surrogate (n : N) : bool := ((56320 <=? n) && (n <=? 57343))%N.

(** The low half of a surrogate pair written as a second [\uXXXX] escape. *)
Definition low_escape (s : string) : option N :=
  match s with
  | String b (String u (String h1 (String h2 (String h3 (String h4 _))))) =>
      if (Ascii.eqb b "\" && Ascii.eqb u "u")%char%bool then
        match hex4 h1 h2 h3 h4 with
        | Some lo => if is_low_surrogate lo then Some lo else None
        | None => None
        end
      else None
  | _ => None
  end.

Definition prepend (p : string) (r : option (string * string))
  : option (string * string) :=
  match r with
  | Some (s, rest) => Some (p ++ s, rest)
  | None => None
  end.

(** [py_scanstring] in strict mode, entered after the opening quote: the
    decoded string and the text after the closing quote.  [None]: the
    string is not terminated, holds a control character or a bad escape. *)
Fixpoint scanstring (s : string) : option (string * string) :=
  match s with
  | EmptyString => None
  | String c r =>
      if Ascii.eqb c dquote then Some (EmptyString, r)
      else if Ascii.eqb c "\"%char then
        match r with
        | EmptyString => None
        | String e r1 =>
            if Ascii.eqb e "u"%char then
              match r1 with
              | String h1 (String h2 (String h3 (String h4 r2))) =>
                  match hex4 h1 h2 h3 h4 with
                  | None => None
                  | Some hi =>
                      match (if is_high_surrogate hi then low_escape r2 else None), r2 with
                      | Some lo, String _ (String _ (String _ (String _ (String _ (String _ r3))))) =>
                          prepend (utf8 (65536 + (hi - 55296) * 1024 + (lo - 56320))%N)
                                  (scanstring r3)
                      | _, _ => prepend (utf8 hi) (scanstring r2)
                      end
                  end
              | _ => None
              end
            else
              match simple_escape e with
              | Some ch => prepend (String ch EmptyString) (scanstring r1)
              | None => None
              end
        end
      else if (nat_of_ascii c <? 32)%nat then None
      else prepend (String c EmptyString) (scanstring r)
  end.

(** [s] without the prefix [p], when it starts with it. *)
Fixpoint strip_prefix (p s : string) : option string :=
  match p with
  | EmptyString => Some s
  | String a p' =>
      match s with
      | EmptyString => None
      | String b s' => if Ascii.eqb a b then strip_prefix p' s' else None
      end
  end.

Definition is_empty (s : string) : bool :=
  match s with
  | EmptyString => true
  | String _ _ => false
  end.

(** The head of [s] when it is the character [c], and what follows it. *)
Definition eat (c : ascii) (s : string) : option string :=
  match s with
  | EmptyString => None
  | String d r => if Ascii.eqb d c then Some r else None
  end.

(** A fraction: a dot and at least one digit. *)
Definition match_frac (s : string) : string * string :=
  match eat "." s with
  | Some r =>
      let '(d, r') := span_digits r in
      if is_empty d then (EmptyString, s) else (String "."%char d, r')
  | None => (EmptyString, s)
  end.

(** An exponent: e or E, an optional sign, at least one digit. *)
Definition match_exp (s : string) : string * string :=
  match s with
  | EmptyString => (EmptyString, s)
  | String e r =>
      if (Ascii.eqb e "e" || Ascii.eqb e "E")%char%bool then
        let '(sign, r1) :=
          match eat "+" r, eat "-" r with
          | Some r', _ => ("+", r')
          | None, Some r' => ("-", r')
          | None, None => (EmptyString, r)
          end in
        let '(d, r2) := span_digits r1 in
        if is_empty d then (EmptyString, s) else (String e (sign ++ d), r2)
      else (EmptyString, s)
  end.

(** [NUMBER_RE], matched at the head of [s]: an optional minus sign, then
    a single 0 or a digit from 1 to 9 with more digits; an optional
    fraction; an optional exponent.  The value is an [int] when neither
    fraction nor exponent matched, a [float] otherwise. *)
Definition match_number (s : string) : option (value * string) :=
  let '(neg, s1) :=
    match eat "-" s with
    | Some r => (true, r)
    | None => (false, s)
    end in
  match s1 with
  | EmptyString => None
  | String c r =>
      if is_digit c then
        let '(ipart, s2) :=
          if Ascii.eqb c "0"%char then ("0", r) else span_digits s1 in
        let '(frac, s3) := match_frac s2 in
        let '(expo, s4) := match_exp s3 in
        if is_empty frac && is_empty expo then
          Some (VInt (if neg then - decimal 0 ipart else decimal 0 ipart)%Z, s4)
        else
          Some (VFloat ((if neg then "-" else EmptyString) ++ ipart ++ frac ++ expo), s4)
      else None
  end.

(** The literals the scanner knows besides numbers. *)
Definition match_constant (s : string) : option (value * string) :=
  match strip_prefix "null" s with
  | Some r => Some (VNone, r)
  | None =>
  match strip_prefix "true" s with
  | Some r => Some (VBool true, r)
  | None =>
  match strip_prefix "false" s with
  | Some r => Some (VBool false, r)
  | None =>
  match match_number s with
  | Some vr => Some vr
  | None =>
  match strip_prefix "NaN" s with
  | Some r => Some (VNaN, r)
  | None =>
  match strip_prefix "Infinity" s with
  | Some r => Some (VFloat "Infinity", r)
  | None =>
  match strip_prefix "-Infinity" s with
  | Some r => Some (VFloat "-Infinity", r)
  | None => None
  end end end end end end end.

(** [scan_once], with [JSONArray] and [JSONObject]: one value at the head
    of [s].  [array_items] is entered at an element, [object_items] after
    the opening quote of a key.  The recursion of the scanner is on [fuel];
    [json_loads_fuel] below shows that [json_loads] gives it enough. *)
Fixpoint scan_once (fuel : nat) (s : string) : scan value :=
  match fuel with
  | O => OutOfFuel
  | S f =>
      match s with
      | EmptyString => Invalid
      | String c r =>
          if Ascii.eqb c dquote then
            match scanstring r with
            | Some (str, r') => Scanned (VStr str) r'
            | None => Invalid
            end
          else if Ascii.eqb c "{"%char then
            match eat "}" (skip_ws r), eat dquote (skip_ws r) with
            | Some r', _ => Scanned (VDict []) r'
            | None, Some r' => object_items f r' []
            | None, None => Invalid
            end
          else if Ascii.eqb c "["%char then
            match eat "]" (skip_ws r) with
            | Some r' => Scanned (VList []) r'
            | None => array_items f (skip_ws r) []
            end
          else
            match match_constant s with
            | Some (v, r') => Scanned v r'
            | None => Invalid
            end
      end
  end

with array_items (fuel : nat) (s : string) (acc : list value) : scan value :=
  match fuel with
  | O => OutOfFuel
  | S f =>
      match scan_once f s with
      | Scanned v r =>
          match eat "]" (skip_ws r), eat "," (skip_ws r) with
          | Some r', _ => Scanned (VList (rev (v :: acc))) r'
          | None, Some r' => array_items f (skip_ws r') (v :: acc)
          | None, None => Invalid
          end
      | Invalid => Invalid
      | OutOfFuel => OutOfFuel
      end
  end

with object_items (fuel : nat) (s : string) (acc : list (string * value))
  : scan value :=
  match fuel with
  | O => OutOfFuel
  | S f =>
      match scanstring s with
      | None => Invalid
      | Some (k, r) =>
          match eat ":" (skip_ws r) with
          | None => Invalid
          | Some r1 =>
              match scan_once f (skip_ws r1) with
              | Scanned v r2 =>
                  match eat "}" (skip_ws r2), eat "," (skip_ws r2) with
                  | Some r3, _ => Scanned (VDict (rev ((k, v) :: acc))) r3
                  | None, Some r3 =>
                      match eat dquote (skip_ws r3) with
                      | Some r4 => object_items f r4 ((k, v) :: acc)
                      | None => Invalid
                      end
                  | None, None => Invalid
                  end
              | Invalid => Invalid
              | OutOfFuel => OutOfFuel
              end
          end
      end
  end.

(** [json.loads(s)]: leading white space, one value, trailing white space
    and nothing else.  [None] is [json.JSONDecodeError].  The limits of the
    interpreter (nesting depth, digits of an integer literal) are outside
    the model. *)
Definition json_loads (s : string) : option value :=
  match scan_once (S (2 * String.length s)) (skip_ws s) with
  | Scanned v r => if is_empty (skip_ws r) then Some v else None
  | Invalid => None
  | OutOfFuel => None
  end.

End Json.
Export Json.

(* ================================================================== *)
(** ** The methods that follow the Unicode tables                      *)
(* ================================================================== *)

Module Text.

(** [c.isspace()] for an ASCII character. *)
Definition is_space (c : ascii) : bool :=
  let n := N_of_ascii c in
  (((9 <=? n) && (n <=? 13)) || ((28 <=? n) && (n <=? 32)))%N.

(** [s.lstrip()], [s.rstrip()] and [s.strip()] on ASCII white space. *)
Fixpoint lstrip (s : string) : string :=
  match s with
  | EmptyString => EmptyString
  | String c r => if is_space c then lstrip r else s
  end.

Fixpoint rstrip (s : string) : string :=
  match s with
  | EmptyString => EmptyString
  | String c r =>
      let r' := rstrip r in
      if is_space c && is_empty r' then EmptyString else String c r'
  end.

Definition strip_ascii (s : string) : string := rstrip (lstrip s).

(** [\w]: letters, digits and the underscore; a byte above 127 belongs to
    a non-ASCII character and is taken as a letter. *)
Definition is_word_char (c : ascii) : bool :=
  let n := N_of_ascii c in
  (((48 <=? n) && (n <=? 57)) || ((65 <=? n) && (n <=? 90))
   || ((97 <=? n) && (n <=? 122)) || (n =? 95) || (128 <=? n))%N.

(** The maximal runs of word characters of [s], [cur] being the run read so
    far (empty runs included). *)
Fixpoint word_runs (cur : string) (s : string) : list string :=
  match s with
  | EmptyString => [cur]
  | String c r =>
      if is_word_char c then word_runs (cur ++ String c EmptyString) r
      else cur :: word_runs EmptyString r
  end.

(** The default [token_pattern] on ASCII text: words of two characters or
    more. *)
Definition tokenize_ascii (s : string) : list string :=
  filter (fun w => (2 <=? String.length w)%nat) (word_runs EmptyString s).

(** The three operations of the program that depend on the Unicode tables:
    [str.lower], [str.strip], and [re.findall] with the default
    [token_pattern] of scikit-learn (words of two or more word characters).
    The functions of the program are written over any instance; what is
    proved for every instance holds for Python's. *)
Class Unicode : Type := {
  lower : string -> string;
  strip : string -> string;
  tokenize : string -> list string
}.

(** Python on ASCII text. *)
#[export] Instance ascii_text : Unicode := {|
  lower := lower_ascii;
  strip := strip_ascii;
  tokenize := tokenize_ascii
|}.

(** Two facts of [str.lower] that some statements need: lowering a lowered
    string changes nothing, and lowering brings no space into a string that
    has none. *)
Definition lower_idempotent (U : Unicode) : Prop :=
  forall s : string, lower (lower s) = lower s.

Definition lower_adds_no_space (U : Unicode) : Prop :=
  forall s : string, mem_char " " s = false -> mem_char " " (lower s) = false.

End Text.
Export Text.

(* ================================================================== *)
(** ** The analyzer of [TfidfVectorizer(stop_words='english')]          *)
(* ================================================================== *)

Module Sklearn.

Definition is_stop_word (stop_words : list string) (w : string) : bool :=
  existsb (String.eqb w) stop_words.

(** [build_analyzer()]: lower-case, tokenize, drop the stop words. *)
Definition analyze {U : Unicode} (stop_words : list string) (doc : string)
  : list string :=
  filter (fun w => negb (is_stop_word stop_words w)) (tokenize (lower doc)).

(** The terms of the corpus, each once. *)
Definition vocabulary (docs : list (list string)) : list string :=
  nodup string_dec (List.concat docs).

End Sklearn.
Export Sklearn.

(* ================================================================== *)
(** ** [src/movie.py]                                                  *)
(* ================================================================== *)

Module Movie.

(** *** Record normalizer (lines 38-50 and 54-82) *)

(** [safe_json_loads], lines 54-61.  [pd.isna] holds of a missing cell
    only.  A cell that is not a [str] has no [replace] method: the
    attribute lookup raises [AttributeError] before [json.loads] is
    reached, and the handler names [JSONDecodeError] and [TypeError]. *)
Definition safe_json_loads (data : cell) : result value :=
  match data with
  | CNaN => Ok (VList [])
  | CStr s =>
      match json_loads (replace "'"%char dq s) with
      | Some v => Ok v
      | None => Ok (VList [])
      end
  | CInt _ | CFloat _ | CBool _ => Raise AttributeError
  end.

(** [member.get('job') == 'Director'] *)
Definition is_director (job : option value) : bool :=
  match job with
  | Some (VStr s) => String.eqb s "Director"
  | _ => false
  end.

(** The loop of [get_director]: only a dict has a [get] method. *)
Fixpoint find_director (crew_list : list value) : result value :=
  match crew_list with
  | [] => Ok (VStr EmptyString)
  | VDict member :: rest =>
      if is_director (dict_get "job" member) then
        match dict_get "name" member with
        | Some name => Ok name
        | None => Ok (VStr EmptyString)
        end
      else find_director rest
  | _ :: _ => Raise AttributeError
  end.

(** [get_director], lines 63-69. *)
Definition get_director (crew_list : value) : result value :=
  match crew_list with
  | VList l => find_director l
  | _ => Ok (VStr EmptyString)
  end.

(** [i['name']]: a missing key of a dict is a [KeyError], any other value
    cannot be indexed by a string. *)
Definition item_name (i : value) : result value :=
  match i with
  | VDict kv =>
      match dict_get "name" kv with
      | Some v => Ok v
      | None => Raise KeyError
      end
  | _ => Raise TypeError
  end.

(** The lambda of line 44. *)
Definition names (x : value) : result value :=
  match x with
  | VList l => let* ns := mapM item_name l in Ok (VList ns)
  | _ => Ok (VList [])
  end.

(** The lambda of line 45: the first three entries only. *)
Definition names_top3 (x : value) : result value :=
  match x with
  | VList l => let* ns := mapM item_name (firstn 3 l) in Ok (VList ns)
  | _ => Ok (VList [])
  end.

(** What [clean_data] returns: a list of strings or a string. *)
Inductive cleaned : Type :=
  | Tokens (l : list string)
  | Token (s : string).

(** [str.lower(i.replace(" ", ""))] *)
Definition normalizeToken {U : Unicode} (s : string) : string :=
  lower (replace " "%char EmptyString s).

(** One element of the comprehension of line 74: [replace] is a method of
    [str] alone. *)
Definition clean_item {U : Unicode} (i : value) : result string :=
  match i with
  | VStr s => Ok (normalizeToken s)
  | _ => Raise AttributeError
  end.

(** [clean_data], lines 71-78. *)
Definition clean_data {U : Unicode} (x : value) : result cleaned :=
  match x with
  | VList l =>
      match mapM clean_item l with
      | Ok ts => Ok (Tokens ts)
      | Raise e => Raise e
      end
  | VStr s => Ok (Token (normalizeToken s))
  | _ => Ok (Token EmptyString)
  end.

(** A row as [create_soup] reads it. *)
Record row : Type := mk_row {
  row_keywords : cleaned;
  row_cast : cleaned;
  row_director : cleaned;
  row_genres : cleaned
}.

(** [' '.join(x)]: over the strings of a list, over the characters of a
    string. *)
Definition join_cleaned (x : cleaned) : string :=
  match x with
  | Tokens l => join " " l
  | Token s => join " " (map (fun c => String c EmptyString) (list_ascii_of_string s))
  end.

(** [create_soup], lines 80-82.  A [str] and a list cannot be added. *)
Definition create_soup (x : row) : result string :=
  match row_director x with
  | Token d =>
      Ok (join_cleaned (row_keywords x) ++ " " ++ join_cleaned (row_cast x)
          ++ " " ++ d ++ " " ++ join_cleaned (row_genres x))
  | Tokens _ => Raise TypeError
  end.

(** The merged frame of line 36, row by row (the id and the overview are
    never read again). *)
Record raw_row : Type := mk_raw {
  raw_title : string;
  raw_genres : cell;
  raw_keywords : cell;
  raw_cast : cell;
  raw_crew : cell
}.

(** The frame [load_and_prepare_data] returns, column by column.  A soup
    cell is a string or missing.  The titles are those of a corpus in which
    every record has one; a title cell that [read_csv] found empty is NaN,
    and what line 98 does with it is [matching_titles] below. *)
Record frame : Type := mk_frame {
  title : list string;
  genres : list cleaned;
  keywords : list cleaned;
  cast : list cleaned;
  director : list cleaned;
  soup : list (option string)
}.

Fixpoint rows (ks cs ds gs : list cleaned) : list row :=
  match ks, cs, ds, gs with
  | k :: ks', c :: cs', d :: ds', g :: gs' =>
      mk_row k c d g :: rows ks' cs' ds' gs'
  | _, _, _, _ => []
  end.

(** [df.apply(f, axis=1)] assigned to a column (line 50).  On a frame
    without rows [apply] calls nothing and returns an empty frame, which
    cannot be assigned to one column: pandas raises [ValueError]. *)
Definition apply_rows {A B : Type} (f : A -> result B) (rows : list A)
  : result (list B) :=
  match rows with
  | [] => Raise ValueError
  | _ :: _ => mapM f rows
  end.

(** [load_and_prepare_data], lines 38-50, from the merged frame on.  Each
    [apply] runs over a whole column before the next one starts, and the
    first exception ends the function. *)
Definition load_and_prepare_data {U : Unicode} (df : list raw_row) : result frame :=
  let* genres0 := mapM safe_json_loads (map raw_genres df) in
  let* keywords0 := mapM safe_json_loads (map raw_keywords df) in
  let* cast0 := mapM safe_json_loads (map raw_cast df) in
  let* crew0 := mapM safe_json_loads (map raw_crew df) in
  let* director0 := mapM get_director crew0 in
  let* genres1 := mapM names genres0 in
  let* keywords1 := mapM names keywords0 in
  let* cast1 := mapM names_top3 cast0 in
  let* cast2 := mapM clean_data cast1 in
  let* keywords2 := mapM clean_data keywords1 in
  let* genres2 := mapM clean_data genres1 in
  let* director1 := mapM clean_data director0 in
  let* soups := apply_rows create_soup (rows keywords2 cast2 director1 genres2) in
  Ok (mk_frame (map raw_title df) genres2 keywords2 cast2 director1
        (map Some soups)).

(** *** Similarity index (lines 86-93) *)

(** A dense matrix of scores, row by row. *)
Definition matrix : Type := list (list Q).

(** A pandas Series with string labels and row numbers as values: its
    (label, value) rows in order.  Labels may repeat. *)
Definition series : Type := list (string * nat).

(** [Series.drop_duplicates()]: a row is dropped when its VALUE occurred in
    an earlier row (keep='first'); the labels play no part. *)
Fixpoint drop_duplicates_from (seen : list nat) (s : series) : series :=
  match s with
  | [] => []
  | (label, v) :: r =>
      if existsb (Nat.eqb v) seen then drop_duplicates_from seen r
      else (label, v) :: drop_duplicates_from (v :: seen) r
  end.

Definition drop_duplicates (s : series) : series := drop_duplicates_from [] s.

(** [df.index]: the row numbers 0 .. N-1 that [merge] assigned. *)
Definition index (df : frame) : list nat := seq 0 (List.length (title df)).

(** [pd.Series(df.index, index=df['title'])] *)
Definition title_series (df : frame) : series := combine (title df) (index df).

(** [fillna('')] on one cell. *)
Definition fillna (c : option string) : string :=
  match c with
  | Some s => s
  | None => EmptyString
  end.

Section Engine.

Context {U : Unicode}.

(** scikit-learn's [ENGLISH_STOP_WORDS]. *)
Variable stop_words : list string.

(** The numeric side of scikit-learn: the TF-IDF weights of the analysed
    documents over the vocabulary, and [linear_kernel]. *)
Variable tfidf_weights : list string -> list (list string) -> matrix.
Variable linear_kernel : matrix -> matrix -> matrix.

(** [tfidf.fit_transform]: scikit-learn raises [ValueError] ("empty
    vocabulary; perhaps the documents only contain stop words") when no
    term is left. *)
Definition fit_transform (docs : list string) : result matrix :=
  let analysed := map (analyze stop_words) docs in
  match vocabulary analysed with
  | [] => Raise ValueError
  | v :: vs => Ok (tfidf_weights (v :: vs) analysed)
  end.

(** [create_recommendation_engine], lines 86-93. *)
Definition create_recommendation_engine (df : frame) : result (matrix * series) :=
  let soup' := map fillna (soup df) in
  let* tfidf_matrix := fit_transform soup' in
  let cosine_sim := linear_kernel tfidf_matrix tfidf_matrix in
  let indices := drop_duplicates (title_series df) in
  Ok (cosine_sim, indices).

End Engine.

(** *** Query engine (lines 95-108) *)

(** What [get_recommendations] returns: a list of titles or a sentence. *)
Inductive reply : Type :=
  | Recommendations (titles : list string)
  | Message (text : string).

(** The f-string of line 100. *)
Definition not_found (title : string) : string :=
  "Sorry, the movie '" ++ title ++ "' was not found in our database.".

(** [indices.keys()] *)
Definition keys (indices : series) : list string := map fst indices.

(** [title in indices]: membership among the labels. *)
Definition contains (indices : series) (title : string) : bool :=
  existsb (String.eqb title) (keys indices).

(** [indices[title]]: the values of every row labelled [title]. *)
Definition getitem (indices : series) (title : string) : list nat :=
  map snd (filter (fun kv => String.eqb (fst kv) title) indices).

(** [a < b] on scores. *)
Definition Qltb (a b : Q) : bool := negb (Qle_bool b a).

(** [sorted(sim_scores, key=lambda x: x[1], reverse=True)]: the stable sort
    into descending scores, equal scores staying in their original order.
    An element goes in front of the sorted later elements, behind those
    with a larger score. *)
Fixpoint insert_desc (x : nat * Q) (l : list (nat * Q)) : list (nat * Q) :=
  match l with
  | [] => [x]
  | y :: r => if Qltb (snd x) (snd y) then y :: insert_desc x r else x :: l
  end.

Definition sorted_desc (l : list (nat * Q)) : list (nat * Q) :=
  fold_right insert_desc [] l.

(** [list(enumerate(row))] *)
Definition enumerate (r : list Q) : list (nat * Q) :=
  combine (seq 0 (List.length r)) r.

(** [l[1:11]] *)
Definition slice_1_11 {A : Type} (l : list A) : list A := firstn 10 (skipn 1 l).

(** [df['title'].iloc[movie_indices].tolist()] *)
Definition iloc (column : list string) (positions : list nat) : result (list string) :=
  mapM (fun i => match nth_error column i with
                 | Some t => Ok t
                 | None => Raise IndexError
                 end) positions.

(** Lines 103-108, for the label the query resolved to.  A label of one row
    gives a row number.  A label of several rows gives a Series of row
    numbers; [cosine_sim[idx]] is then a block of rows, [enumerate] pairs
    positions with whole rows, and [sorted] has to compare two rows of
    N >= 2 scores: the truth value of the element-wise result is ambiguous
    and NumPy raises [ValueError]. *)
Definition rank (title0 : string) (cosine_sim : matrix) (indices : series)
    (df : frame) : result reply :=
  match getitem indices title0 with
  | [] => Raise KeyError
  | [idx] =>
      match nth_error cosine_sim idx with
      | None => Raise IndexError
      | Some scores =>
          let sim_scores := sorted_desc (enumerate scores) in
          let sim_scores := slice_1_11 sim_scores in
          let movie_indices := map fst sim_scores in
          let* titles := iloc (title df) movie_indices in
          Ok (Recommendations titles)
      end
  | idx :: _ :: _ =>
      if forallb (fun i => (i <? List.length cosine_sim)%nat) (getitem indices title0)
      then Raise ValueError
      else Raise IndexError
  end.

(** [get_recommendations], lines 95-108. *)
Definition get_recommendations {U : Unicode} (title0 : string)
    (cosine_sim : matrix) (indices : series) (df : frame) : result reply :=
  if negb (contains indices title0) then
    let matching_titles :=
      filter (fun t => String.eqb (lower t) (lower title0)) (keys indices) in
    match matching_titles with
    | [] => Ok (Message (not_found title0))
    | t :: _ => rank t cosine_sim indices df
    end
  else rank title0 cosine_sim indices df.

(** A label of the index as [read_csv] delivers the title column: the text
    of the cell, or NaN, a float, for a record without title.  [frame] holds
    the titles of a corpus whose records all have one; the labels below are
    those of any corpus. *)
Inductive label : Type :=
  | Label (t : string)
  | NaNLabel.

(** Line 98 over such labels: [t.lower()] is evaluated for every label, and
    a float has no such method. *)
Fixpoint matching_titles {U : Unicode} (title0 : string) (labels : list label)
    : result (list string) :=
  match labels with
  | [] => Ok []
  | NaNLabel :: _ => Raise AttributeError
  | Label t :: r =>
      let* m := matching_titles title0 r in
      Ok (if String.eqb (lower t) (lower title0) then t :: m else m)
  end.

(** *** The ranking the specification asks for *)

(** [x] is ranked before [y]: it has the larger score, or the same score
    and the earlier row. *)
Definition ranked_before (x y : nat * Q) : Prop :=
  (snd y < snd x)%Q \/ ((snd x == snd y)%Q /\ fst x < fst y).

(** A matrix of N rows of N scores for a frame of N movies. *)
Definition square_for (df : frame) (cosine_sim : matrix) : Prop :=
  List.length cosine_sim = List.length (title df)
  /\ Forall (fun scores => List.length scores = List.length (title df)) cosine_sim.

End Movie.
Export Movie.

(* ================================================================== *)
(** ** [src/movie.py]: the column checks and the chat (lines 16-27, 112-147) *)
(* ================================================================== *)

Module Chat.

(** *** The id columns (lines 16-27) *)

Definition possible_movie_id_cols : list string := ["id"; "movie_id"; "tmdbId"].

(** [col in df.columns] *)
Definition has_column (columns : list string) (col : string) : bool :=
  existsb (String.eqb col) columns.

(** Line 17: the first candidate that is a column of the movies file. *)
Definition movie_id_col (movies_columns : list string) : option string :=
  find (has_column movies_columns) possible_movie_id_cols.

(** Lines 16-27: the message [load_and_prepare_data] prints before it
    returns [None], or [None] when both files have their id column. *)
Definition check_id_columns (movies_columns credits_columns : list string)
  : option string :=
  match movie_id_col movies_columns with
  | None =>
      Some "Error: Could not find a movie ID column in 'tmdb_5000_movies.csv'. Expected one of ['id', 'movie_id', 'tmdbId']."
  | Some _ =>
      if negb (has_column credits_columns "movie_id") then
        Some "Error: 'movie_id' column not found in 'tmdb_5000_credits.csv'."
      else None
  end.

(** *** The console *)

(** What the program writes: a [print] call with its argument, or the
    prompt of an [input] call. *)
Inductive out : Type :=
  | Print (s : string)
  | Prompt (s : string).

(** How a run ends: the function returns, an exception of the model leaves
    it, or [input] finds the end of the input and raises [EOFError]. *)
Inductive ending : Type :=
  | Returned
  | Raised (e : exn)
  | RaisedEOFError.

(** The line feed, and the string of it. *)
Definition nl : string := String (ascii_of_N 10) EmptyString.

(** [str(n)] *)
Definition str_of_nat (n : nat) : string := NilEmpty.string_of_uint (Nat.to_uint n).

(** *** The chat loop (lines 131-147) *)

(** [user_input.lower() in ['quit', 'exit']] *)
Definition is_quit {U : Unicode} (user_input : string) : bool :=
  let l := lower user_input in
  String.eqb l "quit" || String.eqb l "exit".

Definition prompt : out := Prompt (nl ++ "Enter a movie title you like: ").

Definition goodbye : out := Print "Thanks for chatting! Enjoy your movie night! 👋".

Definition great (user_input : string) : out :=
  Print (nl ++ "Great! If you liked '" ++ user_input
         ++ "', you might also enjoy these movies:").

(** Lines 142-143, [i] being the position of the first movie of [l]. *)
Fixpoint numbered (i : nat) (l : list string) : list out :=
  match l with
  | [] => []
  | movie :: r => Print ("  " ++ str_of_nat (i + 1) ++ ". " ++ movie) :: numbered (S i) r
  end.

(** The [while True] loop on the lines the user types: each turn reads one
    line, so the loop is a recursion on the lines left.  An exception of
    [get_recommendations] is not caught. *)
Fixpoint chat_loop {U : Unicode} (cosine_sim : matrix) (indices : series)
    (movie_data : frame) (inputs : list string) : list out * ending :=
  match inputs with
  | [] => ([prompt], RaisedEOFError)
  | line :: rest =>
      let user_input := strip line in
      if is_quit user_input then ([prompt; goodbye], Returned)
      else if negb (is_empty user_input) then
        match get_recommendations user_input cosine_sim indices movie_data with
        | Raise e => ([prompt], Raised e)
        | Ok (Recommendations recommendations) =>
            let '(o, e) := chat_loop cosine_sim indices movie_data rest in
            (prompt :: great user_input :: numbered 0 recommendations ++ o, e)%list
        | Ok (Message text) =>
            let '(o, e) := chat_loop cosine_sim indices movie_data rest in
            (prompt :: Print text :: o, e)
        end
      else
        let '(o, e) := chat_loop cosine_sim indices movie_data rest in
        (prompt :: Print "Please enter a movie title." :: o, e)
  end.

(** *** [chatbot] (lines 112-147) *)

Definition welcome : list out :=
  [Print "🎬 Welcome to the Movie Recommendation Chatbot! 🎬";
   Print "I can help you find movies similar to one you like."].

Section Chatbot.

Context {U : Unicode}.
Variable stop_words : list string.
Variable tfidf_weights : list string -> list (list string) -> matrix.
Variable linear_kernel : matrix -> matrix -> matrix.

(** The five titles [random.sample] draws from a list of five or more. *)
Variable sample : list string -> list string.

(** [chatbot], given what the call of [load_and_prepare_data] on line 117
    printed and returned or raised, and the lines the user types.
    [random.sample] raises [ValueError] for a list of fewer than five
    titles. *)
Definition chatbot (loaded : list out * result (option frame))
    (inputs : list string) : list out * ending :=
  match loaded with
  | (printed, Raise e) => ((welcome ++ printed)%list, Raised e)
  | (printed, Ok None) =>
      ((welcome ++ printed ++ [Print "Could not load data. Exiting chatbot."])%list,
       Returned)
  | (printed, Ok (Some movie_data)) =>
      match create_recommendation_engine stop_words tfidf_weights linear_kernel
              movie_data with
      | Raise e => ((welcome ++ printed)%list, Raised e)
      | Ok (cosine_sim, indices) =>
          if (List.length (title movie_data) <? 5)%nat then
            ((welcome ++ printed)%list, Raised ValueError)
          else
            let random_movies := sample (title movie_data) in
            let '(o, e) := chat_loop cosine_sim indices movie_data inputs in
            ((welcome ++ printed
              ++ [Print (nl ++ "To get started, you could ask for recommendations based on movies like:")]
              ++ map (fun movie => Print ("  - " ++ movie)) random_movies
              ++ [Print (nl ++ "Type 'quit' or 'exit' to end the chat.")]
              ++ o)%list, e)
      end
  end.

End Chatbot.

End Chat.
Export Chat.

(* ================================================================== *)
(** ** The Vectorizer and the Similarity Index of the specification    *)
(* ================================================================== *)

(** [movie.py] calls scikit-learn for the weights and the kernel; the
    specification describes them in sections 4.3 and 4.4.  The definitions
    of this module follow those words, on binary64 floats, for documents
    that are lists of tokens. *)
Module Tfidf.















End Tfidf.
Export Tfidf.

(* ================================================================== *)
(** ** Sample corpora                                                  *)
(* ================================================================== *)

Module Samples.

(** The three movies of the end-to-end scenario of the specification. *)
Definition scenario : frame :=
  mk_frame ["A"; "B"; "C"]
    [Tokens ["action"]; Tokens ["action"]; Tokens ["drama"]]
    [Tokens ["hero"]; Tokens ["hero"]; Tokens ["family"]]
    [Tokens ["xy"]; Tokens ["xy"]; Tokens ["zw"]]
    [Token "d1"; Token "d1"; Token "d2"]
    [Some "hero xy d1 action"; Some "hero xy d1 action"; Some "family zw d2 drama"].

(** Its similarity matrix as far as the order of the scores goes: A and B
    have the same soup, hence the same document vector, so the scores of A
    with B and of each with itself are one and the same double [1]; C shares
    no term with them, which gives an exact [0]. *)
Definition scenario_sim : matrix := [[1; 1; 0]; [1; 1; 0]; [0; 0; 1]]%Q.

(** Two movies under one title, as the TMDB data has them. *)
Definition remakes : frame :=
  mk_frame ["Batman"; "Batman"]
    [Tokens ["action"]; Tokens ["action"]]
    [Tokens ["hero"]; Tokens ["bat"]]
    [Tokens ["michaelkeaton"]; Tokens ["adamwest"]]
    [Token "timburton"; Token "lesliehmartinson"]
    [Some "hero michaelkeaton timburton action";
     Some "bat adamwest lesliehmartinson action"].

Definition remakes_sim : matrix := [[1; 1 # 4]; [1 # 4; 1]]%Q.

(** A corpus whose soups hold stop words only, and a few of the words of
    scikit-learn's list. *)
Definition some_stop_words : list string := ["the"; "and"; "of"; "a"].

Definition stop_words_only : frame :=
  mk_frame ["The"; "Of"] [Tokens []; Tokens []] [Tokens ["the"]; Tokens ["of"]]
    [Tokens []; Tokens []] [Token ""; Token "and"]
    [Some "the   "; Some "of  and "].

Definition empty_corpus : frame := mk_frame [] [] [] [] [] [].

(** A JSON text written with a backquote for each double quote. *)
Definition json_text (s : string) : string := replace "`"%char dq s.

(** One raw row in the format of the TMDB files. *)
Definition raw_sample : list raw_row :=
  [mk_raw "Avatar"
     (CStr (json_text "[{`id`: 28, `name`: `Science Fiction`}]"))
     (CStr (json_text "[{`id`: 1463, `name`: `culture clash`}]"))
     (CStr (json_text "[{`name`: `Sam Worthington`}, {`name`: `Zoe Saldana`}, {`name`: `Sigourney Weaver`}, {`name`: `Stephen Lang`}]"))
     (CStr (json_text "[{`job`: `Editor`, `name`: `Stephen Rivkin`}, {`job`: `Director`, `name`: `James Cameron`}]"))].

(** What [load_and_prepare_data] makes of it. *)
Definition prepared_sample : frame :=
  mk_frame ["Avatar"]
    [Tokens ["sciencefiction"]]
    [Tokens ["cultureclash"]]
    [Tokens ["samworthington"; "zoesaldana"; "sigourneyweaver"]]
    [Token "jamescameron"]
    [Some "cultureclash samworthington zoesaldana sigourneyweaver jamescameron sciencefiction"].

(** A list of one string with two apostrophes inside, and a cast list with
    an apostrophe in a name. *)
Definition two_apostrophes : string := json_text "[`a','b`]".
Definition obrien : string := json_text "[{`name`: `O'Brien`}]".

End Samples.
Import Samples.

(* ================================================================== *)
(** ** Properties                                                      *)
(* ================================================================== *)

(** A statement that binds a [U : Unicode] holds for every implementation
    of [str.lower], [str.strip] and the tokenizer, under the hypotheses it
    names.  A statement that binds none is about the instance [ascii_text],
    that is, about corpora and queries of ASCII text. *)

(** *** The error monad *)

Lemma bind_Ok {A B : Type} (m : result A) (k : A -> result B) (b : B) :
  bind m k = Ok b -> exists a, m = Ok a /\ k a = Ok b.
Proof.
  destruct m as [a|e]; cbn; [eauto | discriminate].
Qed.

Lemma mapM_Forall2 {A B : Type} (f : A -> result B) (l : list A) :
  forall bs, mapM f l = Ok bs -> Forall2 (fun a b => f a = Ok b) l bs.
Proof.
  induction l as [|a l IH]; cbn; intros bs H.
  - injection H as <-. constructor.
  - destruct (f a) as [b|] eqn:Ea; [|discriminate].
    destruct (mapM f l) as [bs'|]; [|discriminate].
    injection H as <-. constructor; auto.
Qed.

Lemma Forall2_of_map {A B C : Type} (R : B -> C -> Prop) (g : A -> B) (l : list A) :
  forall cs, Forall2 R (map g l) cs -> Forall2 (fun a c => R (g a) c) l cs.
Proof.
  induction l as [|a l IH]; cbn; intros cs H; inversion H; subst; constructor; auto.
Qed.

Lemma Forall2_compose {A B C : Type} (R : A -> B -> Prop) (S : B -> C -> Prop)
    (l : list A) :
  forall bs cs, Forall2 R l bs -> Forall2 S bs cs ->
                Forall2 (fun a c => exists b, R a b /\ S b c) l cs.
Proof.
  induction l as [|a l IH]; intros bs cs H1 H2; inversion H1; subst;
    inversion H2; subst; constructor; eauto.
Qed.

Lemma Forall2_weaken {A B : Type} (R S : A -> B -> Prop) (l : list A) (bs : list B) :
  (forall a b, R a b -> S a b) -> Forall2 R l bs -> Forall2 S l bs.
Proof.
  intros H F. induction F; constructor; auto.
Qed.

Lemma Forall2_nth_right {A B : Type} (R : A -> B -> Prop) (l : list A) (bs : list B) :
  Forall2 R l bs ->
  forall i b, nth_error bs i = Some b -> exists a, nth_error l i = Some a /\ R a b.
Proof.
  induction 1 as [|a b l bs Hab F IH]; intros [|i] y Hy; cbn in Hy |- *;
    try discriminate.
  - injection Hy as <-. eauto.
  - eauto.
Qed.

Lemma Forall2_right {A B : Type} (R : A -> B -> Prop) (P : B -> Prop)
    (l : list A) (bs : list B) :
  (forall a b, R a b -> P b) -> Forall2 R l bs -> Forall P bs.
Proof.
  intros H F. induction F; constructor; eauto.
Qed.

Lemma mapM_length {A B : Type} (f : A -> result B) (l : list A) (bs : list B) :
  mapM f l = Ok bs -> List.length bs = List.length l.
Proof.
  intro H. apply mapM_Forall2 in H. induction H; cbn; congruence.
Qed.

(** *** The JSON scanner has fuel enough *)

Ltac break_match H :=
  match type of H with
  | context [match ?x with _ => _ end] => destruct x eqn:?
  end.

Lemma skip_ws_length (s : string) : String.length (skip_ws s) <= String.length s.
Proof.
  induction s as [|c r IH]; cbn; [lia|]. destruct (is_ws c); cbn; lia.
Qed.

Lemma eat_length (c : ascii) (s r : string) :
  eat c s = Some r -> String.length s = S (String.length r).
Proof.
  destruct s as [|d s]; cbn; [discriminate|].
  destruct (Ascii.eqb d c); [|discriminate]. now intros [= ->].
Qed.

Lemma span_digits_length (s : string) :
  forall d r, span_digits s = (d, r) -> String.length r <= String.length s.
Proof.
  induction s as [|c s IH]; cbn; intros d r H.
  - injection H as <- <-. cbn. lia.
  - destruct (is_digit c).
    + destruct (span_digits s) as [d' r']. injection H as <- <-.
      specialize (IH _ _ eq_refl). lia.
    + injection H as <- <-. cbn. lia.
Qed.

Lemma strip_prefix_length (p : string) :
  forall s r, strip_prefix p s = Some r ->
              String.length s = String.length p + String.length r.
Proof.
  induction p as [|a p IH]; cbn; intros s r H.
  - now injection H as ->.
  - destruct s as [|b s]; [discriminate|].
    destruct (Ascii.eqb a b); [|discriminate]. cbn. now rewrite (IH _ _ H).
Qed.

Lemma match_frac_length (s f r : string) :
  match_frac s = (f, r) -> String.length r <= String.length s.
Proof.
  unfold match_frac. destruct (eat "." s) as [r0|] eqn:E.
  - destruct (span_digits r0) as [d r'] eqn:D.
    apply eat_length in E. apply span_digits_length in D.
    destruct (is_empty d); intros [= <- <-]; lia.
  - intros [= <- <-]. lia.
Qed.

Lemma match_exp_length (s f r : string) :
  match_exp s = (f, r) -> String.length r <= String.length s.
Proof.
  unfold match_exp. destruct s as [|e r0]; [intros [= <- <-]; cbn; lia|].
  destruct (_ || _)%bool; [|intros [= <- <-]; lia].
  destruct (eat "+" r0) as [rp|] eqn:Ep; [|destruct (eat "-" r0) as [rm|] eqn:Em].
  - apply eat_length in Ep. destruct (span_digits rp) as [d r2] eqn:D.
    apply span_digits_length in D.
    destruct (is_empty d); intros [= <- <-]; cbn; lia.
  - apply eat_length in Em. destruct (span_digits rm) as [d r2] eqn:D.
    apply span_digits_length in D.
    destruct (is_empty d); intros [= <- <-]; cbn; lia.
  - destruct (span_digits r0) as [d r2] eqn:D.
    apply span_digits_length in D.
    destruct (is_empty d); intros [= <- <-]; cbn; lia.
Qed.

Lemma match_number_length (s : string) (v : value) (r : string) :
  match_number s = Some (v, r) -> String.length r < String.length s.
Proof.
  unfold match_number.
  assert (tail : forall (s1 : string) (neg : bool),
    match s1 with
    | EmptyString => None
    | String c r0 =>
        if is_digit c then
          let '(ipart, s2) :=
            if Ascii.eqb c "0"%char then ("0", r0) else span_digits s1 in
          let '(frac, s3) := match_frac s2 in
          let '(expo, s4) := match_exp s3 in
          if is_empty frac && is_empty expo then
            Some (VInt (if neg then - decimal 0 ipart else decimal 0 ipart)%Z, s4)
          else
            Some (VFloat ((if neg then "-" else EmptyString) ++ ipart ++ frac ++ expo), s4)
        else None
    end = Some (v, r) -> String.length r < String.length s1).
  { intros s1 neg. destruct s1 as [|c r1]; [discriminate|].
    destruct (is_digit c) eqn:Dg; [|discriminate].
    destruct (if Ascii.eqb c "0" then ("0", r1) else span_digits (String c r1))
      as [ipart s2] eqn:I.
    assert (L2 : String.length s2 <= String.length r1).
    { destruct (Ascii.eqb c "0"); [injection I as <- <-; lia|].
      cbn in I. rewrite Dg in I. destruct (span_digits r1) as [d r'] eqn:D.
      injection I as <- <-. now apply span_digits_length in D. }
    destruct (match_frac s2) as [frac s3] eqn:F. apply match_frac_length in F.
    destruct (match_exp s3) as [expo s4] eqn:X. apply match_exp_length in X.
    destruct (is_empty frac && is_empty expo); intros [= <- <-]; cbn in *; lia. }
  destruct (eat "-" s) as [r0|] eqn:E.
  - apply eat_length in E. intro H. apply (tail r0 true) in H. lia.
  - intro H. now apply (tail s false) in H.
Qed.

Lemma match_constant_length (s : string) (v : value) (r : string) :
  match_constant s = Some (v, r) -> String.length r < String.length s.
Proof.
  unfold match_constant. intro H.
  repeat match type of H with
         | context [strip_prefix ?p s] =>
             let E := fresh "E" in
             destruct (strip_prefix p s) eqn:E;
             [apply strip_prefix_length in E; cbn in E; injection H as <- <-; lia|]
         | context [match_number s] =>
             let E := fresh "E" in
             destruct (match_number s) as [[v' r']|] eqn:E;
             [apply match_number_length in E; injection H as <- <-; lia|]
         end.
  discriminate.
Qed.

Lemma prepend_Some (p : string) (x : option (string * string)) (k r : string) :
  prepend p x = Some (k, r) -> exists k', x = Some (k', r).
Proof.
  destruct x as [[k' r']|]; cbn; [|discriminate]. intros [= <- <-]. eauto.
Qed.

Lemma scanstring_length_upto (n : nat) :
  forall s k r, String.length s <= n -> scanstring s = Some (k, r) ->
                String.length r < String.length s.
Proof.
  induction n as [|n IH]; intros s k r Hn H.
  - destruct s; [discriminate | cbn in Hn; lia].
  - destruct s as [|c r0]; [discriminate|]. cbn [scanstring] in H. cbn in Hn.
    repeat break_match H; try discriminate;
      try (injection H as <- <-; cbn; lia);
      subst; cbn [String.length] in *;
      apply prepend_Some in H; destruct H as [k' H];
      apply IH in H; cbn [String.length] in *; lia.
Qed.

Lemma scanstring_length (s k r : string) :
  scanstring s = Some (k, r) -> String.length r < String.length s.
Proof.
  apply (scanstring_length_upto (String.length s)). lia.
Qed.

Lemma scanner_fuel (fuel : nat) :
  (forall s,
      (2 * String.length s < fuel -> scan_once fuel s <> OutOfFuel)
      /\ (forall v r, scan_once fuel s = Scanned v r ->
                      String.length r < String.length s))
  /\ (forall s acc,
      (2 * String.length s + 1 < fuel -> array_items fuel s acc <> OutOfFuel)
      /\ (forall v r, array_items fuel s acc = Scanned v r ->
                      String.length r < String.length s))
  /\ (forall s acc,
      (2 * String.length s + 1 < fuel -> object_items fuel s acc <> OutOfFuel)
      /\ (forall v r, object_items fuel s acc = Scanned v r ->
                      String.length r < String.length s)).
Proof.
  induction fuel as [|f (IHs & IHa & IHo)].
  - repeat split; intros; try lia; discriminate.
  - split; [|split].
    + intro s. cbn [scan_once]. destruct s as [|c r0]; [split; intros; discriminate|].
      pose proof (skip_ws_length r0) as W.
      destruct (Ascii.eqb c dquote).
      { destruct (scanstring r0) as [[k r']|] eqn:E; split; intros; try discriminate.
        apply scanstring_length in E. injection H as <- <-. cbn. lia. }
      destruct (Ascii.eqb c "{").
      { destruct (eat "}" (skip_ws r0)) as [r'|] eqn:E1;
          [|destruct (eat dquote (skip_ws r0)) as [r'|] eqn:E2].
        - apply eat_length in E1. split; intros; try discriminate.
          injection H as <- <-. cbn. lia.
        - apply eat_length in E2. split.
          + intro Hf. apply IHo. cbn in Hf. lia.
          + intros v r H. apply IHo in H. cbn. lia.
        - split; intros; discriminate. }
      destruct (Ascii.eqb c "[").
      { destruct (eat "]" (skip_ws r0)) as [r'|] eqn:E1.
        - apply eat_length in E1. split; intros; try discriminate.
          injection H as <- <-. cbn. lia.
        - split.
          + intro Hf. apply IHa. cbn in Hf. lia.
          + intros v r H. apply IHa in H. cbn. lia. }
      destruct (match_constant (String c r0)) as [[v' r']|] eqn:E;
        split; intros; try discriminate.
      apply match_constant_length in E. now injection H as <- <-.
    + intros s acc. cbn [array_items].
      destruct (scan_once f s) as [v0 r0| |] eqn:E.
      * apply IHs in E. pose proof (skip_ws_length r0) as W.
        destruct (eat "]" (skip_ws r0)) as [r'|] eqn:E1;
          [|destruct (eat "," (skip_ws r0)) as [r'|] eqn:E2].
        -- apply eat_length in E1. split; intros; try discriminate.
           injection H as <- <-. lia.
        -- apply eat_length in E2. pose proof (skip_ws_length r') as W'. split.
           ++ intro Hf. apply IHa. lia.
           ++ intros v r H. apply IHa in H. lia.
        -- split; intros; discriminate.
      * split; intros; discriminate.
      * split; [|intros; discriminate].
        intros Hf _. apply (proj1 (IHs s)); [lia | exact E].
    + intros s acc. cbn [object_items].
      destruct (scanstring s) as [[k r0]|] eqn:E; [|split; intros; discriminate].
      apply scanstring_length in E. pose proof (skip_ws_length r0) as W0.
      destruct (eat ":" (skip_ws r0)) as [r1|] eqn:E1; [|split; intros; discriminate].
      apply eat_length in E1. pose proof (skip_ws_length r1) as W1.
      destruct (scan_once f (skip_ws r1)) as [v0 r2| |] eqn:E2.
      * apply IHs in E2. pose proof (skip_ws_length r2) as W2.
        destruct (eat "}" (skip_ws r2)) as [r3|] eqn:E3;
          [|destruct (eat "," (skip_ws r2)) as [r3|] eqn:E4].
        -- apply eat_length in E3. split; intros; try discriminate.
           injection H as <- <-. lia.
        -- apply eat_length in E4. pose proof (skip_ws_length r3) as W3.
           destruct (eat dquote (skip_ws r3)) as [r4|] eqn:E5;
             [|split; intros; discriminate].
           apply eat_length in E5. split.
           ++ intro Hf. apply IHo. lia.
           ++ intros v r H. apply IHo in H. lia.
        -- split; intros; discriminate.
      * split; intros; discriminate.
      * split; [|intros; discriminate].
        intros Hf _. apply (proj1 (IHs (skip_ws r1))); [lia | exact E2].
Qed.

(** [json_loads] never stops for lack of fuel: [None] is a decode error. *)
Lemma json_loads_fuel (s : string) :
  scan_once (S (2 * String.length s)) (skip_ws s) <> OutOfFuel.
Proof.
  apply scanner_fuel. pose proof (skip_ws_length s). lia.
Qed.

(** *** Field parser *)

(** A missing cell and a text cell never make the parser raise. *)
Lemma safe_json_loads_text (data : cell) :
  data = CNaN \/ (exists s, data = CStr s) ->
  exists v, safe_json_loads data = Ok v.
Proof.
  intros [->|[s ->]]; cbn.
  - now exists (VList []).
  - destruct (json_loads _) as [v|]; eauto.
Qed.

(** C5 (evaluation at a numeric cell): for the integer cell 5, what
    [read_csv] delivers for a column of numbers, the parser raises
    [AttributeError]; so does it for every cell that is a number or a
    boolean. *)
Theorem safe_json_loads_raises_on_number :
  safe_json_loads (CInt 5) = Raise AttributeError
  /\ (forall z, safe_json_loads (CInt z) = Raise AttributeError)
  /\ (forall x, safe_json_loads (CFloat x) = Raise AttributeError)
  /\ (forall b, safe_json_loads (CBool b) = Raise AttributeError).
Proof.
  repeat split.
Qed.

(** *** Quote substitution *)

Lemma mem_char_app (c : ascii) (a b : string) :
  mem_char c (a ++ b) = mem_char c a || mem_char c b.
Proof.
  induction a as [|d a IH]; [reflexivity|].
  cbn. rewrite IH. now rewrite orb_assoc.
Qed.

Lemma replace_removes (old : ascii) (new s : string) :
  mem_char old new = false -> mem_char old (replace old new s) = false.
Proof.
  intro Hnew. induction s as [|c r IH]; [reflexivity|].
  cbn. destruct (Ascii.eqb c old) eqn:E.
  - now rewrite mem_char_app, Hnew, IH.
  - cbn. now rewrite E, IH.
Qed.

(** C10 (counterexample): the text [two_apostrophes] is valid JSON, a list
    of one string with two apostrophes inside; the parser does not fail on
    it and does not return the empty list: after the substitution it reads
    the list of the two strings a and b. *)
Lemma safe_json_loads_apostrophes_rebalanced :
  json_loads two_apostrophes = Some (VList [VStr "a','b"])
  /\ mem_char "'" "a','b" = true
  /\ replace "'" dq two_apostrophes = json_text "[`a`,`b`]"
  /\ safe_json_loads (CStr two_apostrophes) = Ok (VList [VStr "a"; VStr "b"]).
Proof.
  repeat split.
Qed.

(** C10 (amended): the parser reads the text in which every single quote
    has become a double quote: no single quote is left in it, the result
    is the value of that text when it is valid JSON and the empty list
    when it is not, whatever the original text was.  A cast entry named
    O'Brien is valid JSON whose substituted text is not: it degrades to
    the empty list. *)
Theorem safe_json_loads_substitutes_quotes :
  forall s : string,
    mem_char "'" (replace "'" dq s) = false
    /\ safe_json_loads (CStr s)
       = Ok (match json_loads (replace "'" dq s) with
             | Some v => v
             | None => VList []
             end)
    /\ json_loads obrien = Some (VList [VDict [("name", VStr "O'Brien")]])
    /\ json_loads (replace "'" dq obrien) = None
    /\ safe_json_loads (CStr obrien) = Ok (VList []).
Proof.
  intro s. split; [now apply replace_removes|].
  split; [|repeat split].
  cbn. now destruct (json_loads _).
Qed.

(** *** Normalization of a name *)

Lemma lower_char_not_upper (c : ascii) : is_upper (lower_char c) = false.
Proof.
  unfold lower_char. destruct (is_upper c) eqn:E; [|exact E].
  unfold is_upper in *. apply andb_true_iff in E. destruct E as [E1 E2].
  apply Nat.leb_le in E1, E2.
  rewrite nat_ascii_embedding by lia.
  apply andb_false_iff. right. apply Nat.leb_gt. lia.
Qed.

Lemma lower_char_space (c : ascii) :
  Ascii.eqb (lower_char c) " " = Ascii.eqb c " ".
Proof.
  unfold lower_char. destruct (is_upper c) eqn:E; [|reflexivity].
  unfold is_upper in E. apply andb_true_iff in E. destruct E as [E1 E2].
  apply Nat.leb_le in E1, E2.
  destruct (Ascii.eqb_spec c " ") as [->|_]; [cbn in E1; lia|].
  apply Ascii.eqb_neq. intro H.
  apply (f_equal nat_of_ascii) in H. rewrite nat_ascii_embedding in H by lia.
  cbn in H. lia.
Qed.

Lemma lower_no_upper (s : string) : any_char is_upper (lower_ascii s) = false.
Proof.
  induction s as [|c r IH]; [reflexivity|].
  cbn. now rewrite lower_char_not_upper, IH.
Qed.

Lemma lower_fixed (s : string) : any_char is_upper s = false -> lower_ascii s = s.
Proof.
  induction s as [|c r IH]; [reflexivity|].
  cbn. intro H. apply orb_false_iff in H. destruct H as [Hc Hr].
  unfold lower_char. now rewrite Hc, IH.
Qed.

Lemma mem_char_lower_space (s : string) :
  mem_char " " (lower_ascii s) = mem_char " " s.
Proof.
  induction s as [|c r IH]; [reflexivity|].
  cbn. now rewrite lower_char_space, IH.
Qed.

(** The ASCII instance has the two facts of [str.lower]. *)
Lemma ascii_lower_idempotent : lower_idempotent ascii_text.
Proof.
  intro s. cbn. apply lower_fixed, lower_no_upper.
Qed.

Lemma ascii_lower_adds_no_space : lower_adds_no_space ascii_text.
Proof.
  intros s H. cbn. now rewrite mem_char_lower_space.
Qed.

Lemma normalizeToken_no_space {U : Unicode} (H : lower_adds_no_space U) (s : string) :
  mem_char " " (normalizeToken s) = false.
Proof.
  unfold normalizeToken. apply H. now apply replace_removes.
Qed.

(** *** The columns [load_and_prepare_data] builds *)

Lemma clean_items {U : Unicode} (ws : list value) :
  forall ts, mapM clean_item ws = Ok ts ->
             exists ns, ws = map VStr ns /\ ts = map normalizeToken ns.
Proof.
  induction ws as [|w ws IH]; cbn; intros ts H.
  - injection H as <-. now exists [].
  - destruct (clean_item w) as [t|] eqn:Ew; [|discriminate].
    destruct (mapM clean_item ws) as [ts'|]; [|discriminate].
    injection H as <-. destruct (IH _ eq_refl) as [ns [-> ->]].
    destruct w; try discriminate. injection Ew as <-.
    now exists (s :: ns).
Qed.

Lemma clean_data_list {U : Unicode} (ws : list value) (k : cleaned) :
  clean_data (VList ws) = Ok k ->
  exists ns, ws = map VStr ns /\ k = Tokens (map normalizeToken ns).
Proof.
  cbn. destruct (mapM clean_item ws) as [ts|] eqn:E; [|discriminate].
  intro H. injection H as <-.
  destruct (clean_items _ _ E) as [ns [-> ->]]. eauto.
Qed.

Lemma clean_data_names {U : Unicode} (ns : list string) :
  clean_data (VList (map VStr ns)) = Ok (Tokens (map normalizeToken ns)).
Proof.
  cbn. induction ns as [|n ns IH]; [reflexivity|].
  cbn. destruct (mapM clean_item (map VStr ns)) as [ts|]; [|discriminate].
  now injection IH as ->.
Qed.

Lemma clean_data_token {U : Unicode} (v : value) (d : string) :
  clean_data v = Ok (Token d) ->
  (exists name, v = VStr name /\ d = normalizeToken name)
  \/ ((forall name, v <> VStr name) /\ d = EmptyString).
Proof.
  destruct v; cbn; intro H; try (injection H as <-; right; split;
    [intros name C; discriminate C | reflexivity]).
  - injection H as <-. left. eauto.
  - destruct (mapM clean_item l); discriminate.
Qed.

Lemma names_list (x : value) (w : value) :
  names x = Ok w -> exists ws, w = VList ws.
Proof.
  destruct x; cbn; intro H; try (injection H as <-; now exists []).
  destruct (mapM item_name l) as [ns|]; [|discriminate].
  cbn in H. injection H as <-. eauto.
Qed.

Lemma names_top3_list (x : value) (w : value) :
  names_top3 x = Ok w -> exists ws, w = VList ws /\ List.length ws <= 3.
Proof.
  destruct x; cbn -[firstn]; intro H;
    try (injection H as <-; exists []; split; [reflexivity | cbn; lia]).
  destruct (mapM item_name (firstn 3 l)) as [ns|] eqn:E; [|discriminate].
  cbn in H. injection H as <-. exists ns. split; [reflexivity|].
  rewrite (mapM_length _ _ _ E). apply firstn_le_length.
Qed.

Lemma rows_nth (ks cs ds gs : list cleaned) :
  forall i r, nth_error (rows ks cs ds gs) i = Some r ->
    nth_error ks i = Some (row_keywords r) /\ nth_error cs i = Some (row_cast r)
    /\ nth_error ds i = Some (row_director r) /\ nth_error gs i = Some (row_genres r).
Proof.
  revert cs ds gs. induction ks as [|k ks IH]; intros cs ds gs i r H.
  - destruct i; discriminate H.
  - destruct cs as [|c cs], ds as [|d ds], gs as [|g gs];
      try (destruct i; discriminate H).
    destruct i as [|i]; cbn in H |- *.
    + injection H as <-. now repeat split.
    + now apply IH.
Qed.

Lemma apply_rows_Ok {A B : Type} (f : A -> result B) (l : list A) (bs : list B) :
  apply_rows f l = Ok bs -> mapM f l = Ok bs /\ l <> [].
Proof.
  destruct l; cbn [apply_rows]; [discriminate|]. intro H. split; [exact H | discriminate].
Qed.

Lemma apply_rows_not_empty {A B : Type} (f : A -> result B) (l : list A) :
  l <> [] -> apply_rows f l = mapM f l.
Proof.
  destruct l; [intro H; now elim H | reflexivity].
Qed.

(** What the thirteen steps of [load_and_prepare_data] leave, column by
    column, when none of them raised. *)
Lemma load_and_prepare_data_columns {U : Unicode} (df : list raw_row) (fr : frame) :
  load_and_prepare_data df = Ok fr ->
  title fr = map raw_title df
  /\ Forall2 (fun raw k => exists v w, safe_json_loads (raw_genres raw) = Ok v
                 /\ names v = Ok w /\ clean_data w = Ok k) df (genres fr)
  /\ Forall2 (fun raw k => exists v w, safe_json_loads (raw_keywords raw) = Ok v
                 /\ names v = Ok w /\ clean_data w = Ok k) df (keywords fr)
  /\ Forall2 (fun raw k => exists v w, safe_json_loads (raw_cast raw) = Ok v
                 /\ names_top3 v = Ok w /\ clean_data w = Ok k) df (cast fr)
  /\ Forall2 (fun raw k => exists v w, safe_json_loads (raw_crew raw) = Ok v
                 /\ get_director v = Ok w /\ clean_data w = Ok k) df (director fr)
  /\ exists soups, soup fr = map Some soups
       /\ Forall2 (fun r s => create_soup r = Ok s)
            (rows (keywords fr) (cast fr) (director fr) (genres fr)) soups.
Proof.
  unfold load_and_prepare_data. intro H.
  repeat match type of H with
         | bind _ _ = Ok _ =>
             let a := fresh "col" in
             let E := fresh "E" in
             apply bind_Ok in H; destruct H as [a [E H]];
             first [ apply mapM_Forall2 in E
                   | apply apply_rows_Ok in E; destruct E as [E _];
                     apply mapM_Forall2 in E ]
         end.
  injection H as <-. cbn.
  repeat match goal with
         | F : Forall2 _ (map _ _) _ |- _ => apply Forall2_of_map in F
         end.
  split; [reflexivity|].
  assert (chain : forall (f : raw_row -> cell) (g : value -> result value)
                         (xs ys : list value) (zs : list cleaned),
             Forall2 (fun a b => safe_json_loads (f a) = Ok b) df xs ->
             Forall2 (fun a b => g a = Ok b) xs ys ->
             Forall2 (fun a b => clean_data a = Ok b) ys zs ->
             Forall2 (fun raw k => exists v w, safe_json_loads (f raw) = Ok v
                        /\ g v = Ok w /\ clean_data w = Ok k) df zs).
  { intros f g xs ys zs F1 F2 F3.
    pose proof (Forall2_compose _ _ _ _ _ (Forall2_compose _ _ _ _ _ F1 F2) F3) as F.
    eapply Forall2_weaken; [|exact F].
    cbn. intros a b [w [[v [Hv Hw]] Hk]]. eauto. }
  repeat split; eauto.
Qed.

(** *** Soup *)

Lemma nth_error_map_Some {A : Type} (l : list A) (i : nat) (c : option A) :
  nth_error (map Some l) i = Some c -> exists a, c = Some a /\ nth_error l i = Some a.
Proof.
  revert i. induction l as [|a l IH]; intros [|i] H; cbn in H; try discriminate.
  - injection H as <-. eauto.
  - now apply IH.
Qed.

(** C8: [create_soup] returns, for every normalized record, its keywords
    joined by single spaces, a space, its cast joined by single spaces, a
    space, its director, a space, its genres joined by single spaces, in
    that order.  In the frame [load_and_prepare_data] returns, the soup of
    every row is that text for the normalized fields of the row, where the
    cast has three names at most and the director is one token with no
    space in it. *)
Theorem create_soup_layout :
  (forall (kw ca ge : list string) (d : string),
      create_soup (mk_row (Tokens kw) (Tokens ca) (Token d) (Tokens ge))
      = Ok (join " " kw ++ " " ++ join " " ca ++ " " ++ d ++ " " ++ join " " ge))
  /\ (forall (df : list raw_row) (fr : frame) (i : nat) (s : option string),
      load_and_prepare_data df = Ok fr ->
      nth_error (soup fr) i = Some s ->
      exists (kw ca ge : list string) (d : string),
        nth_error (keywords fr) i = Some (Tokens (map normalizeToken kw))
        /\ nth_error (cast fr) i = Some (Tokens (map normalizeToken ca))
        /\ List.length ca <= 3
        /\ nth_error (director fr) i = Some (Token d)
        /\ mem_char " " d = false
        /\ nth_error (genres fr) i = Some (Tokens (map normalizeToken ge))
        /\ s = Some (join " " (map normalizeToken kw) ++ " "
                     ++ join " " (map normalizeToken ca) ++ " " ++ d ++ " "
                     ++ join " " (map normalizeToken ge))).
Proof.
  split; [reflexivity|].
  intros df fr i s Hload Hs.
  destruct (load_and_prepare_data_columns _ _ Hload)
    as (_ & Fg & Fk & Fc & Fd & soups & Es & Fs).
  rewrite Es in Hs. apply nth_error_map_Some in Hs. destruct Hs as [s' [-> Hs']].
  destruct (Forall2_nth_right _ _ _ Fs _ _ Hs') as [r [Hr Hsoup]].
  apply rows_nth in Hr. destruct Hr as (Hk & Hc & Hd & Hg).
  destruct (Forall2_nth_right _ _ _ Fk _ _ Hk) as (_ & _ & v1 & w1 & _ & N1 & C1).
  destruct (Forall2_nth_right _ _ _ Fc _ _ Hc) as (_ & _ & v2 & w2 & _ & N2 & C2).
  destruct (Forall2_nth_right _ _ _ Fd _ _ Hd) as (_ & _ & v3 & w3 & _ & _ & C3).
  destruct (Forall2_nth_right _ _ _ Fg _ _ Hg) as (_ & _ & v4 & w4 & _ & N4 & C4).
  apply names_list in N1, N4. destruct N1 as [ws1 ->], N4 as [ws4 ->].
  apply names_top3_list in N2. destruct N2 as [ws2 [-> L2]].
  apply clean_data_list in C1, C2, C4.
  destruct C1 as [kw [-> E1]], C2 as [ca [-> E2]], C4 as [ge [-> E4]].
  rewrite length_map in L2.
  destruct r as [rk rc rd rg]. cbn in *. subst rk rc rg.
  unfold create_soup in Hsoup. cbn in Hsoup.
  destruct rd as [l|d]; [discriminate|].
  injection Hsoup as <-.
  exists kw, ca, ge, d. repeat split; auto.
  apply clean_data_token in C3. destruct C3 as [[name [_ ->]]|[_ ->]];
    [apply (normalizeToken_no_space ascii_lower_adds_no_space) | reflexivity].
Qed.

Lemma create_soup_layout_witness :
  load_and_prepare_data raw_sample = Ok prepared_sample
  /\ create_soup (mk_row (Tokens ["hero"]) (Tokens ["xy"]) (Token "d1")
                    (Tokens ["action"])) = Ok "hero xy d1 action"
  /\ exists (kw ca ge : list string) (d : string),
      nth_error (keywords prepared_sample) 0 = Some (Tokens (map normalizeToken kw))
      /\ nth_error (cast prepared_sample) 0 = Some (Tokens (map normalizeToken ca))
      /\ List.length ca <= 3
      /\ nth_error (director prepared_sample) 0 = Some (Token d)
      /\ mem_char " " d = false
      /\ nth_error (genres prepared_sample) 0 = Some (Tokens (map normalizeToken ge))
      /\ Some "cultureclash samworthington zoesaldana sigourneyweaver jamescameron sciencefiction"
         = Some (join " " (map normalizeToken kw) ++ " "
                 ++ join " " (map normalizeToken ca) ++ " " ++ d ++ " "
                 ++ join " " (map normalizeToken ge)).
Proof.
  assert (E : load_and_prepare_data raw_sample = Ok prepared_sample)
    by (vm_compute; reflexivity).
  split; [exact E|].
  split; [exact (proj1 create_soup_layout ["hero"] ["xy"] ["action"] "d1")|].
  exact (proj2 create_soup_layout raw_sample prepared_sample 0 _ E eq_refl).
Defined.

(** *** Normalization is per name *)

Lemma create_soup_has_space (r : row) (s : string) :
  create_soup r = Ok s -> mem_char " " s = true.
Proof.
  unfold create_soup. destruct (row_director r); [discriminate|].
  intro H. injection H as <-.
  rewrite mem_char_app. apply orb_true_iff. right. reflexivity.
Qed.

(** C9: whatever the text operations of the interpreter, as long as
    [str.lower] is idempotent and adds no space: the normalization of a
    string, the lower-cased string without its spaces, holds no space and is
    entirely lower case, that is, [str.lower] leaves it as it is.
    [clean_data] applies it to a string, and to each string of a list on its
    own.  In the frame [load_and_prepare_data] returns, every genre, keyword
    and cast entry is the normalization of one extracted name and the
    director is the normalization of the director's name; the soup is joined
    from them afterwards and keeps its separating spaces. *)
Theorem clean_data_normalizes_each_name :
  forall U : Unicode, lower_idempotent U -> lower_adds_no_space U ->
  forall s : string,
    normalizeToken s = lower (replace " " EmptyString s)
    /\ mem_char " " (normalizeToken s) = false
    /\ lower (normalizeToken s) = normalizeToken s
    /\ clean_data (VStr s) = Ok (Token (normalizeToken s))
    /\ (forall ns, clean_data (VList (map VStr ns))
                   = Ok (Tokens (map normalizeToken ns)))
    /\ (forall (df : list raw_row) (fr : frame),
          load_and_prepare_data df = Ok fr ->
          Forall2 (fun raw k => exists v ns,
                     safe_json_loads (raw_genres raw) = Ok v
                     /\ names v = Ok (VList (map VStr ns))
                     /\ k = Tokens (map normalizeToken ns)) df (genres fr)
          /\ Forall2 (fun raw k => exists v ns,
                     safe_json_loads (raw_keywords raw) = Ok v
                     /\ names v = Ok (VList (map VStr ns))
                     /\ k = Tokens (map normalizeToken ns)) df (keywords fr)
          /\ Forall2 (fun raw k => exists v ns,
                     safe_json_loads (raw_cast raw) = Ok v
                     /\ names_top3 v = Ok (VList (map VStr ns))
                     /\ k = Tokens (map normalizeToken ns)) df (cast fr)
          /\ Forall2 (fun raw k => exists v w,
                     safe_json_loads (raw_crew raw) = Ok v
                     /\ get_director v = Ok w
                     /\ clean_data w = Ok k
                     /\ forall name, w = VStr name -> k = Token (normalizeToken name))
               df (director fr)
          /\ Forall (fun c => exists t, c = Some t /\ mem_char " " t = true)
               (soup fr)).
Proof.
  intros U Hidem Hspace s.
  split; [reflexivity|].
  split; [now apply normalizeToken_no_space|].
  split; [unfold normalizeToken; apply Hidem|].
  split; [reflexivity|].
  split; [exact clean_data_names|].
  intros df fr Hload.
  destruct (load_and_prepare_data_columns _ _ Hload)
    as (_ & Fg & Fk & Fc & Fd & soups & Es & Fs).
  repeat split.
  - eapply Forall2_weaken; [|exact Fg]. cbn.
    intros raw k (v & w & Hv & Hw & Hk).
    destruct (names_list _ _ Hw) as [ws ->].
    destruct (clean_data_list _ _ Hk) as [ns [-> ->]]. eauto.
  - eapply Forall2_weaken; [|exact Fk]. cbn.
    intros raw k (v & w & Hv & Hw & Hk).
    destruct (names_list _ _ Hw) as [ws ->].
    destruct (clean_data_list _ _ Hk) as [ns [-> ->]]. eauto.
  - eapply Forall2_weaken; [|exact Fc]. cbn.
    intros raw k (v & w & Hv & Hw & Hk).
    destruct (names_top3_list _ _ Hw) as [ws [-> _]].
    destruct (clean_data_list _ _ Hk) as [ns [-> ->]]. eauto.
  - eapply Forall2_weaken; [|exact Fd]. cbn.
    intros raw k (v & w & Hv & Hw & Hk).
    exists v, w. repeat split; auto.
    intros name ->. cbn in Hk. now injection Hk as <-.
  - rewrite Es. apply Forall_map.
    eapply Forall2_right; [|exact Fs]. cbn.
    intros r t Hr. exists t. split; [reflexivity|].
    now apply create_soup_has_space in Hr.
Qed.

Lemma clean_data_normalizes_each_name_witness :
  normalizeToken "Science Fiction" = "sciencefiction"
  /\ lower (normalizeToken "Science Fiction") = normalizeToken "Science Fiction"
  /\ load_and_prepare_data raw_sample = Ok prepared_sample
  /\ Forall2 (fun raw k => exists v ns,
                safe_json_loads (raw_cast raw) = Ok v
                /\ names_top3 v = Ok (VList (map VStr ns))
                /\ k = Tokens (map normalizeToken ns)) raw_sample (cast prepared_sample)
  /\ Forall (fun c => exists t, c = Some t /\ mem_char " " t = true)
       (soup prepared_sample).
Proof.
  assert (E : load_and_prepare_data raw_sample = Ok prepared_sample)
    by (vm_compute; reflexivity).
  pose proof (clean_data_normalizes_each_name ascii_text
    ascii_lower_idempotent ascii_lower_adds_no_space "Science Fiction") as N.
  split; [reflexivity|].
  split; [exact (proj1 (proj2 (proj2 N)))|].
  split; [exact E|].
  pose proof (proj2 (proj2 (proj2 (proj2 (proj2 N)))) raw_sample prepared_sample E) as H.
  split; [exact (proj1 (proj2 (proj2 H))) | exact (proj2 (proj2 (proj2 (proj2 H))))].
Defined.

(** *** Empty vocabulary *)

Lemma analyze_all_stop_words {U : Unicode} (stop_words : list string) (doc : string) :
  (forall w, In w (tokenize (lower doc)) -> is_stop_word stop_words w = true) ->
  analyze stop_words doc = [].
Proof.
  unfold analyze. induction (tokenize (lower doc)) as [|w ws IH]; intro H;
    [reflexivity|].
  cbn. rewrite (H w (or_introl eq_refl)). cbn. apply IH.
  intros w' Hin. apply H. now right.
Qed.

Lemma concat_all_nil {A : Type} (ls : list (list A)) :
  (forall l, In l ls -> l = []) -> List.concat ls = [].
Proof.
  induction ls as [|l ls IH]; intro H; [reflexivity|].
  cbn. rewrite (H l (or_introl eq_refl)). apply IH. intros l' Hin. apply H. now right.
Qed.

(** C3 (counterexample): on the empty corpus, and on a corpus whose soups
    hold stop words only, engine initialization does not complete: fitting
    the vectorizer raises [ValueError], whatever the numeric kernel. *)
Lemma engine_raises_on_empty_vocabulary :
  (forall stop_words w k,
      create_recommendation_engine stop_words w k empty_corpus = Raise ValueError)
  /\ (forall w k,
      create_recommendation_engine some_stop_words w k stop_words_only
        = Raise ValueError).
Proof.
  split; intros; reflexivity.
Qed.

(** C3 (amended): for every corpus whose soups hold no token besides stop
    words (the empty corpus included), engine initialization raises
    [ValueError] for the empty vocabulary; no similarity state is built. *)
Theorem engine_empty_vocabulary :
  forall (stop_words : list string)
         (tfidf_weights : list string -> list (list string) -> matrix)
         (linear_kernel : matrix -> matrix -> matrix) (df : frame),
    (forall c w, In c (soup df) -> In w (tokenize (lower (fillna c))) ->
                 is_stop_word stop_words w = true) ->
    create_recommendation_engine stop_words tfidf_weights linear_kernel df
      = Raise ValueError.
Proof.
  intros stop_words tfidf_weights linear_kernel df H.
  unfold create_recommendation_engine, fit_transform, vocabulary.
  rewrite concat_all_nil; [reflexivity|].
  intros l Hin. apply in_map_iff in Hin. destruct Hin as [doc [<- Hdoc]].
  apply in_map_iff in Hdoc. destruct Hdoc as [c [<- Hc]].
  apply analyze_all_stop_words. intros w Hw. exact (H c w Hc Hw).
Qed.

Lemma engine_empty_vocabulary_witness :
  (forall c w, In c (soup stop_words_only) -> In w (tokenize (lower (fillna c))) ->
               is_stop_word some_stop_words w = true)
  /\ create_recommendation_engine some_stop_words (fun _ _ => [])
       (fun _ _ => []) stop_words_only = Raise ValueError.
Proof.
  assert (H : forall c w, In c (soup stop_words_only) ->
                          In w (tokenize (lower (fillna c))) ->
                          is_stop_word some_stop_words w = true).
  { intros c w [<-|[<-|[]]] Hw; vm_compute in Hw;
      repeat (destruct Hw as [<-|Hw]; [reflexivity|]); destruct Hw. }
  split; [exact H|].
  exact (engine_empty_vocabulary some_stop_words (fun _ _ => []) (fun _ _ => [])
           stop_words_only H).
Defined.

(** *** Title index *)

Lemma drop_duplicates_from_fresh (labels : list string) :
  forall (a n : nat) (seen : list nat),
    (forall v, In v seen -> v < a) ->
    drop_duplicates_from seen (combine labels (seq a n)) = combine labels (seq a n).
Proof.
  induction labels as [|t ts IH]; intros a n seen Hseen; [reflexivity|].
  destruct n as [|n]; [reflexivity|]. cbn [seq combine drop_duplicates_from].
  destruct (existsb (Nat.eqb a) seen) eqn:E.
  - apply existsb_exists in E. destruct E as [v [Hin Hv]].
    apply Nat.eqb_eq in Hv. subst v. apply Hseen in Hin. lia.
  - f_equal. apply IH. intros v [<-|Hin]; [lia|]. apply Hseen in Hin. lia.
Qed.

(** Line 92 drops nothing: the values of the Series are the row numbers,
    which are all different. *)
Lemma drop_duplicates_title_series (df : frame) :
  drop_duplicates (title_series df) = title_series df.
Proof.
  unfold drop_duplicates, title_series, index.
  apply drop_duplicates_from_fresh. intros v [].
Qed.

Lemma keys_title_series (df : frame) : keys (title_series df) = title df.
Proof.
  unfold keys, title_series, index.
  generalize 0. induction (title df) as [|t ts IH]; intro a; [reflexivity|].
  cbn. f_equal. apply IH.
Qed.

(** C4 (evaluation at a corpus with a repeated title): the index the engine
    builds for two movies titled Batman keeps both rows under that title;
    looking the title up gives the two row numbers, not the first-seen one,
    and a query for it ends in a [ValueError]. *)
Theorem title_index_keeps_repeated_titles :
  forall w,
    create_recommendation_engine some_stop_words w (fun _ _ => remakes_sim) remakes
      = Ok (remakes_sim, [("Batman", 0); ("Batman", 1)])
    /\ getitem (drop_duplicates (title_series remakes)) "Batman" = [0; 1]
    /\ get_recommendations "Batman" remakes_sim
         (drop_duplicates (title_series remakes)) remakes = Raise ValueError.
Proof.
  intro w. repeat split; reflexivity.
Qed.

Lemma rank_not_message (t : string) (cosine_sim : matrix) (indices : series)
    (df : frame) (text : string) :
  rank t cosine_sim indices df <> Ok (Message text).
Proof.
  unfold rank.
  destruct (getitem indices t) as [|idx [|idx' rest]]; [discriminate| |].
  - destruct (nth_error cosine_sim idx); [|discriminate].
    destruct (iloc _ _); discriminate.
  - destruct (forallb _ _); discriminate.
Qed.

Lemma getitem_of_key (indices : series) (t : string) :
  In t (keys indices) -> getitem indices t <> [].
Proof.
  unfold keys, getitem. induction indices as [|[k v] r IH]; [intros []|].
  cbn. intros [<-|Hin].
  - rewrite String.eqb_refl. discriminate.
  - destruct (String.eqb k t); [discriminate | now apply IH].
Qed.

Lemma contains_true_iff (indices : series) (t : string) :
  contains indices t = true <-> In t (keys indices).
Proof.
  unfold contains. rewrite existsb_exists. split.
  - intros [u [Hin E]]. apply String.eqb_eq in E. now subst u.
  - intro Hin. exists t. split; [exact Hin | apply String.eqb_refl].
Qed.

(** The first element a filter keeps, and what stands before it. *)
Lemma filter_first {A : Type} (p : A -> bool) (l : list A) :
  (exists x, In x l /\ p x = true) ->
  exists before x after rest,
    l = (before ++ x :: after)%list /\ p x = true
    /\ (forall y, In y before -> p y = false)
    /\ filter p l = x :: rest.
Proof.
  induction l as [|a l IH]; intros [x [Hin Hp]]; [destruct Hin|].
  destruct (p a) eqn:Ea.
  - exists [], a, l, (filter p l). cbn. rewrite Ea. repeat split; auto. intros y [].
  - destruct Hin as [->|Hin]; [congruence|].
    destruct (IH (ex_intro _ x (conj Hin Hp))) as (before & x' & after & rest & El & Hx & Hb & Ef).
    exists (a :: before), x', after, rest. cbn. rewrite Ea.
    repeat split; auto; [now rewrite El|].
    intros y [<-|Hy]; auto.
Qed.

(** *** The stable descending sort *)

Lemma Qltb_lt (a b : Q) : Qltb a b = true <-> (a < b)%Q.
Proof.
  unfold Qltb. rewrite negb_true_iff. split.
  - intro H. apply Qnot_le_lt. intro L. apply Qle_bool_iff in L. congruence.
  - intro H. destruct (Qle_bool b a) eqn:E; [|reflexivity].
    apply Qle_bool_iff in E. now apply Qlt_not_le in H.
Qed.

Lemma Qltb_ge (a b : Q) : Qltb a b = false <-> (b <= a)%Q.
Proof.
  unfold Qltb. rewrite negb_false_iff. apply Qle_bool_iff.
Qed.

Lemma insert_desc_perm (x : nat * Q) (l : list (nat * Q)) :
  Permutation (insert_desc x l) (x :: l).
Proof.
  induction l as [|y r IH]; cbn; [reflexivity|].
  destruct (Qltb (snd x) (snd y)); [|reflexivity].
  rewrite IH. apply perm_swap.
Qed.

Lemma sorted_desc_perm (l : list (nat * Q)) : Permutation (sorted_desc l) l.
Proof.
  induction l as [|x l IH]; cbn; [reflexivity|].
  rewrite insert_desc_perm. now constructor.
Qed.

Lemma sorted_desc_length (l : list (nat * Q)) :
  List.length (sorted_desc l) = List.length l.
Proof.
  apply Permutation_length, sorted_desc_perm.
Qed.

Lemma ranked_before_trans_le (x y z : nat * Q) :
  (snd y <= snd x)%Q -> fst x < fst y -> ranked_before y z -> fst x < fst z ->
  ranked_before x z.
Proof.
  unfold ranked_before. intros Hyx Hxy [Hzy|[Hyz Hlt]] Hxz.
  - left. eapply Qlt_le_trans; eauto.
  - destruct (Qlt_le_dec (snd y) (snd x)) as [L|L].
    + left. now rewrite <- Hyz.
    + right. split; [|exact Hxz]. rewrite <- Hyz. now apply Qle_antisym.
Qed.

Lemma insert_desc_ranked (x : nat * Q) (l : list (nat * Q)) :
  StronglySorted ranked_before l ->
  (forall y, In y l -> fst x < fst y) ->
  StronglySorted ranked_before (insert_desc x l).
Proof.
  induction 1 as [|y r Hr IH Hy]; intro Hx; cbn.
  - repeat constructor.
  - destruct (Qltb (snd x) (snd y)) eqn:E.
    + constructor.
      * apply IH. intros z Hz. apply Hx. now right.
      * rewrite Forall_forall in *. intros z Hz.
        apply (Permutation_in _ (insert_desc_perm x r)) in Hz.
        destruct Hz as [<-|Hz]; [|now apply Hy].
        left. now apply Qltb_lt.
    + apply Qltb_ge in E.
      assert (Hxy : ranked_before x y).
      { destruct (Qlt_le_dec (snd y) (snd x)) as [L|L]; [now left|].
        right. split; [now apply Qle_antisym | apply Hx; now left]. }
      constructor; [now constructor|].
      constructor; [exact Hxy|].
      rewrite Forall_forall in *. intros z Hz.
      apply (ranked_before_trans_le x y z); auto.
      * apply Hx. now left.
      * apply Hx. now right.
Qed.

(** On rows listed by increasing row number the sort is the ranking:
    scores descending, equal scores by row number. *)
Lemma sorted_desc_ranked (l : list (nat * Q)) :
  StronglySorted (fun x y => fst x < fst y) l ->
  StronglySorted ranked_before (sorted_desc l).
Proof.
  induction 1 as [|x l Hl IH Hx]; cbn; [constructor|].
  apply insert_desc_ranked; [exact IH|].
  rewrite Forall_forall in Hx. intros y Hy. apply Hx.
  now apply (Permutation_in _ (sorted_desc_perm l)).
Qed.

Lemma enumerate_from_sorted (r : list Q) :
  forall a, StronglySorted (fun x y => fst x < fst y) (combine (seq a (List.length r)) r).
Proof.
  induction r as [|q r IH]; intro a; cbn; constructor; [apply IH|].
  rewrite Forall_forall. intros [i q'] Hin. cbn.
  apply in_combine_l in Hin. apply in_seq in Hin. lia.
Qed.

Lemma enumerate_from_nth (r : list Q) :
  forall a i q, In (i, q) (combine (seq a (List.length r)) r) <->
                a <= i /\ nth_error r (i - a) = Some q.
Proof.
  induction r as [|q0 r IH]; intros a i q; cbn.
  - split; [intros [] | intros [_ H]]. destruct (i - a); discriminate.
  - rewrite IH. split.
    + intros [[= <- <-]|[Ha Hn]].
      * rewrite Nat.sub_diag. split; [lia | reflexivity].
      * split; [lia|]. replace (i - a) with (S (i - S a)) by lia. exact Hn.
    + intros [Ha Hn]. destruct (i - a) as [|k] eqn:E.
      * left. cbn in Hn. injection Hn as ->. f_equal. lia.
      * right. split; [lia|]. replace (i - S a) with k by lia. exact Hn.
Qed.

Lemma enumerate_nth (r : list Q) (i : nat) (q : Q) :
  In (i, q) (enumerate r) <-> nth_error r i = Some q.
Proof.
  unfold enumerate. rewrite enumerate_from_nth, Nat.sub_0_r.
  split; [tauto | split; [lia | assumption]].
Qed.

Lemma enumerate_length (r : list Q) : List.length (enumerate r) = List.length r.
Proof.
  unfold enumerate. rewrite length_combine, length_seq. lia.
Qed.

(** *** What a query returns for a title of one row *)

Lemma iloc_in_range (column : list string) (positions : list nat) :
  Forall (fun i => i < List.length column) positions ->
  exists titles, iloc column positions = Ok titles
                 /\ Forall2 (fun i t => nth_error column i = Some t) positions titles.
Proof.
  unfold iloc. induction 1 as [|i ps Hi Hps [ts [E F]]]; cbn.
  - exists []. split; [reflexivity | constructor].
  - destruct (nth_error column i) as [t|] eqn:En.
    + rewrite E. exists (t :: ts). split; [reflexivity | now constructor].
    + apply nth_error_None in En. lia.
Qed.

Lemma Forall2_length_eq {A B : Type} (R : A -> B -> Prop) (l : list A) (bs : list B) :
  Forall2 R l bs -> List.length l = List.length bs.
Proof.
  induction 1; cbn; congruence.
Qed.

Lemma slice_1_11_length {A : Type} (l : list A) :
  List.length (slice_1_11 l) = Nat.min 10 (List.length l - 1).
Proof.
  unfold slice_1_11. now rewrite length_firstn, length_skipn.
Qed.

Lemma slice_1_11_In {A : Type} (l : list A) (x : A) :
  In x (slice_1_11 l) -> In x (tl l).
Proof.
  unfold slice_1_11. intro H.
  assert (H' : In x (skipn 1 l)).
  { rewrite <- (firstn_skipn 10 (skipn 1 l)). apply in_or_app. now left. }
  destruct l; [destruct H' | exact H'].
Qed.

(** Lines 104-108 for a title that labels the single row [idx]: the answer
    is a list of titles, those of the rows ranked second to eleventh. *)
Lemma rank_one_row (t : string) (cosine_sim : matrix) (indices : series)
    (df : frame) (idx : nat) (scores : list Q) :
  getitem indices t = [idx] ->
  nth_error cosine_sim idx = Some scores ->
  List.length scores <= List.length (title df) ->
  exists titles,
    rank t cosine_sim indices df = Ok (Recommendations titles)
    /\ Forall2 (fun x t' => nth_error (title df) (fst x) = Some t')
         (slice_1_11 (sorted_desc (enumerate scores))) titles
    /\ List.length titles = Nat.min 10 (List.length scores - 1).
Proof.
  intros Hg Hrow Hlen. unfold rank. rewrite Hg, Hrow.
  destruct (iloc_in_range (title df)
              (map fst (slice_1_11 (sorted_desc (enumerate scores)))))
    as [titles [E F]].
  { rewrite Forall_map, Forall_forall. intros [i q] Hin. cbn.
    apply slice_1_11_In in Hin.
    assert (Hin' : In (i, q) (sorted_desc (enumerate scores))).
    { destruct (sorted_desc (enumerate scores)); [destruct Hin | now right]. }
    apply (Permutation_in _ (sorted_desc_perm _)) in Hin'.
    apply enumerate_nth in Hin'.
    assert (i < List.length scores) by (apply nth_error_Some; congruence). lia. }
  exists titles. rewrite E. cbn [bind]. split; [reflexivity|]. split.
  - now apply Forall2_of_map in F.
  - apply Forall2_length_eq in F. rewrite <- F, length_map, slice_1_11_length.
    now rewrite sorted_desc_length, enumerate_length.
Qed.

Lemma title_series_nth (ts : list string) :
  forall a t i, In (t, i) (combine ts (seq a (List.length ts))) <->
                a <= i /\ nth_error ts (i - a) = Some t.
Proof.
  induction ts as [|t0 ts IH]; intros a t i; cbn.
  - split; [intros [] | intros [_ H]]. destruct (i - a); discriminate.
  - rewrite IH. split.
    + intros [[= <- <-]|[Ha Hn]].
      * rewrite Nat.sub_diag. split; [lia | reflexivity].
      * split; [lia|]. replace (i - a) with (S (i - S a)) by lia. exact Hn.
    + intros [Ha Hn]. destruct (i - a) as [|k] eqn:E.
      * left. cbn in Hn. injection Hn as ->. f_equal. lia.
      * right. split; [lia|]. replace (i - S a) with k by lia. exact Hn.
Qed.

(** The rows a title is looked up to are the rows that carry it. *)
Lemma getitem_title_series (df : frame) (t : string) (i : nat) :
  In i (getitem (title_series df) t) <-> nth_error (title df) i = Some t.
Proof.
  unfold getitem, title_series, index. rewrite in_map_iff. split.
  - intros [[k v] [<- Hin]]. apply filter_In in Hin. destruct Hin as [Hin E].
    cbn in E. apply String.eqb_eq in E. subst k.
    apply title_series_nth in Hin. cbn. now rewrite Nat.sub_0_r in Hin.
  - intro H. exists (t, i). split; [reflexivity|]. apply filter_In. split.
    + apply title_series_nth. rewrite Nat.sub_0_r. split; [lia | exact H].
    + cbn. apply String.eqb_refl.
Qed.

(** A query for a title that one row carries, on the index and a matrix the
    engine built: the answer lists the titles of the rows ranked second to
    eleventh among ALL rows (the query row is one of them) by score
    descending, equal scores by row number; ten titles, or all but one when
    the corpus has fewer than eleven movies. *)
Lemma get_recommendations_ranked {U : Unicode} (df : frame) (cosine_sim : matrix)
    (t : string) (idx : nat) :
  square_for df cosine_sim ->
  getitem (drop_duplicates (title_series df)) t = [idx] ->
  exists scores titles,
    nth_error cosine_sim idx = Some scores
    /\ nth_error (title df) idx = Some t
    /\ get_recommendations t cosine_sim (drop_duplicates (title_series df)) df
       = Ok (Recommendations titles)
    /\ Permutation (sorted_desc (enumerate scores)) (enumerate scores)
    /\ StronglySorted ranked_before (sorted_desc (enumerate scores))
    /\ Forall2 (fun x t' => nth_error (title df) (fst x) = Some t')
         (slice_1_11 (sorted_desc (enumerate scores))) titles
    /\ List.length titles = Nat.min 10 (List.length (title df) - 1).
Proof.
  intros [Hrows Hcols] Hg. rewrite drop_duplicates_title_series in *.
  assert (Ht : nth_error (title df) idx = Some t).
  { apply getitem_title_series. rewrite Hg. now left. }
  assert (Hidx : idx < List.length cosine_sim).
  { rewrite Hrows. apply nth_error_Some. congruence. }
  destruct (nth_error cosine_sim idx) as [scores|] eqn:Erow;
    [|apply nth_error_None in Erow; lia].
  assert (Hlen : List.length scores = List.length (title df)).
  { rewrite Forall_forall in Hcols. apply Hcols. eapply nth_error_In; eauto. }
  destruct (rank_one_row t cosine_sim (title_series df) df idx scores Hg Erow)
    as (titles & Er & F & L); [lia|].
  exists scores, titles. repeat split; auto.
  - unfold get_recommendations.
    assert (C : contains (title_series df) t = true).
    { apply contains_true_iff. rewrite keys_title_series.
      eapply nth_error_In; eauto. }
    now rewrite C.
  - apply sorted_desc_perm.
  - apply sorted_desc_ranked, enumerate_from_sorted.
  - now rewrite L, Hlen.
Qed.

Lemma ranked_before_asym (x y : nat * Q) :
  ranked_before x y -> ranked_before y x -> False.
Proof.
  unfold ranked_before. intros [H1|[E1 L1]] [H2|[E2 L2]].
  - eapply Qlt_irrefl, Qlt_trans; eauto.
  - rewrite E2 in H1. now apply Qlt_irrefl in H1.
  - rewrite E1 in H2. now apply Qlt_irrefl in H2.
  - lia.
Qed.

Lemma enumerate_fst (r : list Q) : map fst (enumerate r) = seq 0 (List.length r).
Proof.
  unfold enumerate. generalize 0. induction r as [|q r IH]; intro a; cbn;
    [reflexivity | now rewrite IH].
Qed.

(** When the query row is ranked before every other row (no earlier row
    reaches its self-similarity, no later row exceeds it), it is the entry
    the slice drops, and no title of the answer comes from it. *)
Lemma query_row_dropped_when_first (scores : list Q) (idx : nat) (q : Q) :
  nth_error scores idx = Some q ->
  (forall j q', nth_error scores j = Some q' -> j <> idx ->
                ranked_before (idx, q) (j, q')) ->
  hd_error (sorted_desc (enumerate scores)) = Some (idx, q)
  /\ ~ In idx (map fst (slice_1_11 (sorted_desc (enumerate scores)))).
Proof.
  intros Hq Hfirst.
  pose proof (sorted_desc_perm (enumerate scores)) as P.
  pose proof (sorted_desc_ranked _ (enumerate_from_sorted scores 0)) as S.
  fold (enumerate scores) in S.
  assert (N : NoDup (map fst (sorted_desc (enumerate scores)))).
  { eapply Permutation_NoDup; [apply Permutation_map, Permutation_sym, P|].
    rewrite enumerate_fst. apply seq_NoDup. }
  assert (Hin : In (idx, q) (sorted_desc (enumerate scores))).
  { apply (Permutation_in _ (Permutation_sym P)). now apply enumerate_nth. }
  destruct (sorted_desc (enumerate scores)) as [|[j q'] rest] eqn:E;
    [destruct Hin|].
  assert (Hhead : (j, q') = (idx, q)).
  { destruct Hin as [H|H]; [exact H|]. exfalso.
    inversion S as [|? ? _ Hall]; subst. rewrite Forall_forall in Hall.
    specialize (Hall _ H).
    assert (Hj : nth_error scores j = Some q').
    { apply enumerate_nth, (Permutation_in _ P). now left. }
    assert (Hne : j <> idx).
    { intros ->. cbn in N. inversion N as [|? ? Hnot _]; subst.
      apply Hnot. apply in_map_iff. now exists (idx, q). }
    exact (ranked_before_asym _ _ Hall (Hfirst j q' Hj Hne)). }
  injection Hhead as -> ->. split; [reflexivity|].
  intro Hc. apply in_map_iff in Hc. destruct Hc as [[i qi] [Ei Hi]]. cbn in Ei. subst i.
  apply slice_1_11_In in Hi. cbn in Hi, N.
  inversion N as [|? ? Hnot _]; subst. apply Hnot.
  apply in_map_iff. now exists (idx, qi).
Qed.

(** *** Unknown titles *)

Lemma contains_false_of_lower {U : Unicode} (indices : series) (title0 : string) :
  (forall t, In t (keys indices) -> lower t <> lower title0) ->
  contains indices title0 = false.
Proof.
  intro H. unfold contains. destruct (existsb _ _) eqn:E; [|reflexivity].
  apply existsb_exists in E. destruct E as [t [Hin Ht]].
  apply String.eqb_eq in Ht. subst t. now elim (H _ Hin).
Qed.

Lemma no_match_of_lower {U : Unicode} (indices : series) (title0 : string) :
  (forall t, In t (keys indices) -> lower t <> lower title0) ->
  filter (fun t => String.eqb (lower t) (lower title0)) (keys indices) = [].
Proof.
  intro H. induction (keys indices) as [|t ts IH]; [reflexivity|].
  cbn. destruct (String.eqb_spec (lower t) (lower title0)) as [E|_].
  - elim (H t); [now left | exact E].
  - apply IH. intros t' Hin. apply H. now right.
Qed.

(** On an index whose labels are all text, a query title that matches no
    label, exactly or up to letter case, is answered by the not-found
    sentence, which holds the title as it was typed. *)
Lemma get_recommendations_not_found_of_text {U : Unicode} (title0 : string)
    (cosine_sim : matrix) (indices : series) (df : frame) :
  (forall t, In t (keys indices) -> lower t <> lower title0) ->
  get_recommendations title0 cosine_sim indices df
    = Ok (Message ("Sorry, the movie '" ++ title0 ++ "' was not found in our database.")).
Proof.
  intro H. unfold get_recommendations.
  rewrite (contains_false_of_lower _ _ H). cbn [negb].
  now rewrite (no_match_of_lower _ _ H).
Qed.

(** On text labels the scan of line 98 is the filter [get_recommendations]
    runs. *)
Lemma matching_titles_of_text {U : Unicode} (title0 : string) (ts : list string) :
  matching_titles title0 (map Label ts)
  = Ok (filter (fun t => String.eqb (lower t) (lower title0)) ts).
Proof.
  induction ts as [|t ts IH]; [reflexivity|].
  cbn [map matching_titles filter]. rewrite IH. cbn [bind].
  now destruct (String.eqb (lower t) (lower title0)).
Qed.

(** C2 (failing input): when a record of the corpus has no title, the index
    has a NaN label, and the scan that a query without exact match starts
    raises [AttributeError] at that label: the query is answered by neither
    the not-found sentence nor a list.  This holds whatever the query and
    whatever the text operations of the interpreter. *)
Theorem get_recommendations_scan_raises_on_missing_title :
  forall (U : Unicode) (title0 : string) (labels : list label),
    In NaNLabel labels ->
    matching_titles title0 labels = Raise AttributeError.
Proof.
  intros U title0 labels. induction labels as [|l r IH]; intro H; [destruct H|].
  destruct l as [t|]; [|reflexivity].
  cbn [matching_titles]. destruct H as [H|H]; [discriminate H|].
  now rewrite (IH H).
Qed.

Lemma get_recommendations_scan_raises_on_missing_title_witness :
  In NaNLabel [Label "Avatar"; NaNLabel; Label "Heat"]
  /\ matching_titles "nonexistent movie" [Label "Avatar"; NaNLabel; Label "Heat"]
     = Raise AttributeError.
Proof.
  assert (H : In NaNLabel [Label "Avatar"; NaNLabel; Label "Heat"])
    by (right; left; reflexivity).
  split; [exact H|].
  exact (get_recommendations_scan_raises_on_missing_title ascii_text
           "nonexistent movie" [Label "Avatar"; NaNLabel; Label "Heat"] H).
Defined.

(** *** Title resolution *)

(** An indexed title is looked up as it is, the scan is not run.  A title
    that is not indexed but equals some indexed title up to letter case is
    resolved by the scan to the first such title of the corpus; the answer
    is the one for that title, whose lookup finds a row, and it is never the
    not-found sentence.  When one row carries the resolved title, the answer
    is a list of titles. *)
Lemma get_recommendations_resolution {U : Unicode} (title0 : string)
    (cosine_sim : matrix) (indices : series) (df : frame) :
    (contains indices title0 = true ->
     get_recommendations title0 cosine_sim indices df
       = rank title0 cosine_sim indices df)
    /\ (contains indices title0 = false ->
        (exists t, In t (keys indices) /\ lower t = lower title0) ->
        exists before t after,
          keys indices = (before ++ t :: after)%list
          /\ lower t = lower title0
          /\ (forall u, In u before -> lower u <> lower title0)
          /\ get_recommendations title0 cosine_sim indices df
             = rank t cosine_sim indices df
          /\ get_recommendations title0 cosine_sim indices df
             = get_recommendations t cosine_sim indices df
          /\ getitem indices t <> []
          /\ (forall text,
               get_recommendations title0 cosine_sim indices df <> Ok (Message text))
          /\ (forall idx,
               indices = drop_duplicates (title_series df) ->
               square_for df cosine_sim ->
               getitem indices t = [idx] ->
               exists titles,
                 get_recommendations title0 cosine_sim indices df
                   = Ok (Recommendations titles)
                 /\ List.length titles = Nat.min 10 (List.length (title df) - 1))).
Proof.
  split.
  - intro E. unfold get_recommendations. now rewrite E.
  - intros E [t0 [Hin0 Hl0]].
    destruct (filter_first (fun t => String.eqb (lower t) (lower title0)) (keys indices))
      as (before & t & after & rest & Ek & Ht & Hb & Ef).
    { exists t0. split; [exact Hin0 | now apply String.eqb_eq]. }
    apply String.eqb_eq in Ht.
    assert (Hin : In t (keys indices)).
    { rewrite Ek. apply in_or_app. right. now left. }
    assert (R : get_recommendations title0 cosine_sim indices df
                = rank t cosine_sim indices df).
    { unfold get_recommendations. rewrite E. cbn [negb]. now rewrite Ef. }
    assert (R' : get_recommendations title0 cosine_sim indices df
                 = get_recommendations t cosine_sim indices df).
    { rewrite R. unfold get_recommendations.
      now rewrite (proj2 (contains_true_iff indices t) Hin). }
    exists before, t, after. repeat split; auto.
    + intros u Hu. specialize (Hb u Hu). cbn in Hb.
      now apply String.eqb_neq in Hb.
    + now apply getitem_of_key.
    + intro text. rewrite R. apply rank_not_message.
    + intros idx -> Hsq Hg. rewrite R'.
      destruct (get_recommendations_ranked df cosine_sim t idx Hsq Hg)
        as (scores & titles & _ & _ & Hr & _ & _ & _ & L).
      now exists titles.
Qed.

(** C6 (failing input): in the corpus of two movies both titled Batman the
    query batman is no label of the index; the scan finds the two labels
    Batman and resolves the query to the first.  The lookup of that label
    gives both rows and the ranking raises [ValueError]: the query is not
    resolved to an answer.  (In the corpus A, B, C of distinct titles the
    query c is resolved, and answered as C is.) *)
Theorem get_recommendations_case_scan_raises_on_repeated_title :
  contains (drop_duplicates (title_series remakes)) "batman" = false
  /\ filter (fun t => String.eqb (lower t) (lower "batman"))
       (keys (drop_duplicates (title_series remakes))) = ["Batman"; "Batman"]
  /\ getitem (drop_duplicates (title_series remakes)) "Batman" = [0; 1]
  /\ get_recommendations "batman" remakes_sim
       (drop_duplicates (title_series remakes)) remakes = Raise ValueError
  /\ get_recommendations "c" scenario_sim
       (drop_duplicates (title_series scenario)) scenario
     = get_recommendations "C" scenario_sim
         (drop_duplicates (title_series scenario)) scenario
  /\ get_recommendations "c" scenario_sim
       (drop_duplicates (title_series scenario)) scenario
     = Ok (Recommendations ["A"; "B"]).
Proof.
  repeat split.
Qed.

(** *** Ranking *)

(** C1 (evaluation at the scenario of the specification, queried for B):
    A and B have equal soups, so in B's row the scores of A and of B itself
    are equal and A, the earlier row, is ranked first by the stable sort.
    The slice drops A and the answer lists B, the query movie itself.
    (Queried for A, the same corpus gives B and C.) *)
Theorem get_recommendations_lists_query_movie :
  get_recommendations "B" scenario_sim (drop_duplicates (title_series scenario))
    scenario = Ok (Recommendations ["B"; "C"])
  /\ getitem (drop_duplicates (title_series scenario)) "B" = [1]
  /\ nth_error (title scenario) 1 = Some "B"
  /\ sorted_desc (enumerate [1; 1; 0]%Q) = [(0, 1%Q); (1, 1%Q); (2, 0%Q)]
  /\ get_recommendations "A" scenario_sim (drop_duplicates (title_series scenario))
       scenario = Ok (Recommendations ["B"; "C"]).
Proof.
  repeat split.
Qed.

(** *** The similarity matrix of the specification *)

(** **** Signs of binary64 results *)














(** **** Dot products *)















(* ================================================================== *)
(** ** Further properties of the code                                  *)
(* ================================================================== *)

(** *** [get_director] *)

(** X1: the first crew member whose job is Director decides: its name is
    returned (the empty string when it has none), whatever stands behind it
    in the list, well-formed or not. *)
Theorem get_director_first_director :
  forall (before after : list value) (member : list (string * value)),
    Forall (fun m => exists d, m = VDict d /\ is_director (dict_get "job" d) = false)
      before ->
    is_director (dict_get "job" member) = true ->
    get_director (VList (before ++ VDict member :: after)%list)
      = Ok (match dict_get "name" member with
            | Some name => name
            | None => VStr EmptyString
            end).
Proof.
  intros before after member Hb Hm. cbn [get_director].
  induction Hb as [|m before [d [-> Hd]] _ IH]; cbn [app find_director].
  - rewrite Hm. now destruct (dict_get "name" member).
  - rewrite Hd. exact IH.
Qed.

Lemma get_director_first_director_witness :
  get_director
    (VList ([VDict [("job", VStr "Editor"); ("name", VStr "Stephen Rivkin")]]
            ++ VDict [("job", VStr "Director"); ("name", VStr "James Cameron")]
            :: [VInt 7; VDict [("job", VStr "Director"); ("name", VStr "Second")]])%list)
  = Ok (VStr "James Cameron").
Proof.
  refine (get_director_first_director
            [VDict [("job", VStr "Editor"); ("name", VStr "Stephen Rivkin")]]
            [VInt 7; VDict [("job", VStr "Director"); ("name", VStr "Second")]]
            [("job", VStr "Director"); ("name", VStr "James Cameron")] _ eq_refl).
  constructor; [|constructor].
  exists [("job", VStr "Editor"); ("name", VStr "Stephen Rivkin")].
  split; reflexivity.
Defined.

(** X2: without a Director the answer is the empty string: for a value
    that is no list, and for a list (the empty one included) of dicts none
    of which has the job Director. *)
Theorem get_director_without_director :
  forall crew_list : value,
    (forall l, crew_list = VList l ->
       Forall (fun m => exists d, m = VDict d /\ is_director (dict_get "job" d) = false) l) ->
    get_director crew_list = Ok (VStr EmptyString).
Proof.
  intros crew_list H. destruct crew_list; try reflexivity.
  specialize (H l eq_refl). cbn [get_director].
  induction H as [|m l' [d [-> Hd]] _ IH]; cbn [find_director]; [reflexivity|].
  now rewrite Hd.
Qed.

Lemma get_director_without_director_witness :
  get_director (VList [VDict [("job", VStr "Editor")]; VDict [("name", VStr "Nobody")];
                       VDict [("job", VStr "director")]])
  = Ok (VStr EmptyString).
Proof.
  apply get_director_without_director. intros l [= <-].
  repeat constructor; eexists; split; reflexivity.
Defined.

(** X3: a crew member that is not a dict and stands before the first
    Director makes [get_director] raise [AttributeError]: the loop calls
    its [get] method. *)
Theorem get_director_raises_on_non_dict :
  forall (before after : list value) (x : value),
    Forall (fun m => exists d, m = VDict d /\ is_director (dict_get "job" d) = false)
      before ->
    (forall d, x <> VDict d) ->
    get_director (VList (before ++ x :: after)%list) = Raise AttributeError.
Proof.
  intros before after x Hb Hx. cbn [get_director].
  induction Hb as [|m before [d [-> Hd]] _ IH]; cbn [app find_director].
  - destruct x; try reflexivity. now elim (Hx kv).
  - now rewrite Hd.
Qed.

Lemma get_director_raises_on_non_dict_witness :
  get_director (VList ([VDict [("job", VStr "Editor")]]
                       ++ VStr "Director" :: [VDict [("job", VStr "Director")]])%list)
  = Raise AttributeError.
Proof.
  apply get_director_raises_on_non_dict.
  - repeat constructor. eexists; split; reflexivity.
  - intros d C; discriminate C.
Defined.

(** *** The name lists of lines 44-45 *)

Lemma mapM_item_name_iff (l : list value) (ns : list value) :
  mapM item_name l = Ok ns <->
  Forall2 (fun i n => exists d, i = VDict d /\ dict_get "name" d = Some n) l ns.
Proof.
  split.
  - intro H. apply mapM_Forall2 in H.
    eapply Forall2_weaken; [|exact H]. cbn. intros i n Hi.
    destruct i; try discriminate. cbn in Hi.
    destruct (dict_get "name" kv) eqn:E; [|discriminate].
    injection Hi as <-. eauto.
  - induction 1 as [|i n l ns [d [-> Hd]] _ IH]; cbn; [reflexivity|].
    now rewrite Hd, IH.
Qed.

(** X4: the lambda of line 44 succeeds on a list exactly when every entry
    is a dict with a name, and then gives the names of the entries, one for
    one and in their order. *)
Theorem names_ok_iff :
  forall (l ns : list value),
    names (VList l) = Ok (VList ns) <->
    Forall2 (fun i n => exists d, i = VDict d /\ dict_get "name" d = Some n) l ns.
Proof.
  intros l ns. rewrite <- mapM_item_name_iff. cbn.
  destruct (mapM item_name l) as [ns'|e]; cbn; split; intro H;
    try discriminate; now injection H as ->.
Qed.

(** X5: the first entry that has no name ends the lambda of line 44: with
    [KeyError] when it is a dict, with [TypeError] when it is anything
    else.  For the cast (line 45) only the first three entries count: the
    same entry at the fourth place or later changes nothing. *)
Theorem names_raise_on_entry_without_name :
  forall (before after : list value) (x : value),
    Forall (fun i => exists d n, i = VDict d /\ dict_get "name" d = Some n) before ->
    (forall d, x = VDict d -> dict_get "name" d = None) ->
    names (VList (before ++ x :: after)%list)
      = Raise (match x with VDict _ => KeyError | _ => TypeError end)
    /\ (3 <= List.length before ->
        names_top3 (VList (before ++ x :: after)%list) = names_top3 (VList before)
        /\ exists ns, names_top3 (VList before) = Ok (VList ns) /\ List.length ns = 3).
Proof.
  intros before after x Hb Hx. split.
  - cbn. induction Hb as [|i before (d & n & -> & Hd) _ IH]; cbn.
    + destruct x; try reflexivity. cbn. now rewrite (Hx kv eq_refl).
    + rewrite Hd. destruct (mapM item_name (before ++ x :: after)) as [ns|e];
        [discriminate IH | cbn in IH |- *; exact IH].
  - intro L. cbn -[firstn].
    rewrite firstn_app. replace (3 - List.length before) with 0 by lia.
    rewrite firstn_O, app_nil_r. split; [reflexivity|].
    assert (F : Forall (fun i => exists d n, i = VDict d /\ dict_get "name" d = Some n)
                  (firstn 3 before)).
    { rewrite Forall_forall in *. intros i Hi. apply Hb.
      rewrite <- (firstn_skipn 3 before). apply in_or_app. now left. }
    assert (E : exists ns, mapM item_name (firstn 3 before) = Ok ns).
    { clear -F. induction F as [|i l (d & n & -> & Hd) _ [ns IH]]; cbn.
      - now exists [].
      - rewrite Hd, IH. eauto. }
    destruct E as [ns E]. unfold names_top3. rewrite E. cbn. exists ns. split; [reflexivity|].
    rewrite (mapM_length _ _ _ E), length_firstn. lia.
Qed.

Lemma names_raise_on_entry_without_name_witness :
  names (VList ([VDict [("name", VStr "a")]; VDict [("name", VStr "b")];
                 VDict [("name", VStr "c")]] ++ VInt 4 :: [])%list) = Raise TypeError
  /\ names_top3 (VList ([VDict [("name", VStr "a")]; VDict [("name", VStr "b")];
                         VDict [("name", VStr "c")]] ++ VInt 4 :: [])%list)
     = Ok (VList [VStr "a"; VStr "b"; VStr "c"]).
Proof.
  assert (Hb : Forall (fun i => exists d n, i = VDict d /\ dict_get "name" d = Some n)
                 [VDict [("name", VStr "a")]; VDict [("name", VStr "b")];
                  VDict [("name", VStr "c")]]).
  { repeat constructor; do 2 eexists; split; reflexivity. }
  assert (Hx : forall d, VInt 4 = VDict d -> dict_get "name" d = None)
    by (intros d C; discriminate C).
  destruct (names_raise_on_entry_without_name _ [] (VInt 4) Hb Hx) as [H1 H2].
  split; [exact H1|].
  destruct (H2 (le_n 3)) as [H3 _]. rewrite H3. reflexivity.
Defined.

(** *** [clean_data]: what normalization identifies *)

Lemma append_assoc (a b c : string) : (a ++ b) ++ c = a ++ (b ++ c).
Proof.
  induction a as [|x a IH]; [reflexivity|]. cbn. now rewrite IH.
Qed.

Lemma replace_app (old : ascii) (new a b : string) :
  replace old new (a ++ b) = replace old new a ++ replace old new b.
Proof.
  induction a as [|c a IH]; [reflexivity|].
  cbn. destruct (Ascii.eqb c old); rewrite IH; [|reflexivity].
  now rewrite append_assoc.
Qed.

Lemma replace_absent (old : ascii) (new s : string) :
  mem_char old s = false -> replace old new s = s.
Proof.
  induction s as [|c r IH]; [reflexivity|].
  cbn. intro H. apply orb_false_iff in H. destruct H as [Hc Hr].
  now rewrite Hc, IH.
Qed.

Lemma normalizeToken_erases_space {U : Unicode} (a b : string) :
  normalizeToken (a ++ " " ++ b) = normalizeToken (a ++ b).
Proof.
  unfold normalizeToken. f_equal. rewrite !replace_app. reflexivity.
Qed.

(** X6: whatever the text operations of the interpreter, as long as
    [str.lower] is idempotent and adds no space: normalization erases a
    space wherever it stands, so names that differ only in spacing become
    one token, and it leaves a normalized token as it is. *)
Theorem normalizeToken_erases_spaces_and_is_idempotent :
  forall U : Unicode, lower_idempotent U -> lower_adds_no_space U ->
  forall a b : string,
    normalizeToken (a ++ " " ++ b) = normalizeToken (a ++ b)
    /\ normalizeToken (" " ++ a) = normalizeToken a
    /\ normalizeToken (normalizeToken a) = normalizeToken a.
Proof.
  intros U Hidem Hspace a b.
  split; [apply normalizeToken_erases_space|].
  split; [reflexivity|].
  unfold normalizeToken at 1.
  rewrite (replace_absent _ _ _ (normalizeToken_no_space Hspace a)).
  unfold normalizeToken. apply Hidem.
Qed.

Lemma normalizeToken_erases_spaces_and_is_idempotent_witness :
  normalizeToken ("Sam" ++ " " ++ "Worthington") = normalizeToken ("Sam" ++ "Worthington")
  /\ normalizeToken "Sam Worthington" = "samworthington"
  /\ normalizeToken (normalizeToken "Sam Worthington") = normalizeToken "Sam Worthington".
Proof.
  destruct (normalizeToken_erases_spaces_and_is_idempotent ascii_text
              ascii_lower_idempotent ascii_lower_adds_no_space "Sam" "Worthington")
    as (H1 & _ & _).
  destruct (normalizeToken_erases_spaces_and_is_idempotent ascii_text
              ascii_lower_idempotent ascii_lower_adds_no_space "Sam Worthington" "")
    as (_ & _ & H3).
  split; [exact H1|]. split; [reflexivity | exact H3].
Defined.

(** *** [load_and_prepare_data]: shape and failure *)

Lemma rows_length (n : nat) :
  forall ks cs ds gs : list cleaned,
    List.length ks = n -> List.length cs = n -> List.length ds = n ->
    List.length gs = n -> List.length (rows ks cs ds gs) = n.
Proof.
  induction n as [|n IH]; intros [|k ks] [|c cs] [|d ds] [|g gs]; cbn; intros;
    try discriminate; try reflexivity.
  f_equal. apply IH; congruence.
Qed.

(** X7: when [load_and_prepare_data] succeeds, the frame has one row for
    each row it was given, in the same order: the titles are the given
    titles, and every column (genres, keywords, cast, director, soup) has
    as many cells as there were rows. *)
Theorem load_and_prepare_data_keeps_rows :
  forall (df : list raw_row) (fr : frame),
    load_and_prepare_data df = Ok fr ->
    title fr = map raw_title df
    /\ List.length (genres fr) = List.length df
    /\ List.length (keywords fr) = List.length df
    /\ List.length (cast fr) = List.length df
    /\ List.length (director fr) = List.length df
    /\ List.length (soup fr) = List.length df.
Proof.
  intros df fr H.
  destruct (load_and_prepare_data_columns _ _ H)
    as (Ht & Fg & Fk & Fc & Fd & soups & Es & Fs).
  apply Forall2_length_eq in Fg, Fk, Fc, Fd, Fs.
  repeat split; auto.
  rewrite Es, length_map, <- Fs. apply rows_length; auto.
Qed.

Lemma load_and_prepare_data_keeps_rows_witness :
  load_and_prepare_data raw_sample = Ok prepared_sample
  /\ title prepared_sample = map raw_title raw_sample
  /\ List.length (soup prepared_sample) = List.length raw_sample.
Proof.
  assert (E : load_and_prepare_data raw_sample = Ok prepared_sample)
    by (vm_compute; reflexivity).
  destruct (load_and_prepare_data_keeps_rows _ _ E) as (H1 & _ & _ & _ & _ & H6).
  now repeat split.
Defined.

Lemma safe_json_loads_raises_only (c : cell) (e : exn) :
  safe_json_loads c = Raise e -> e = AttributeError.
Proof.
  destruct c; cbn; try congruence. destruct (json_loads _); discriminate.
Qed.

Lemma mapM_raises_only {A B : Type} (f : A -> result B) (e0 : exn) (l : list A) :
  (forall a e, f a = Raise e -> e = e0) ->
  forall e, mapM f l = Raise e -> e = e0.
Proof.
  intro Hf. induction l as [|a l IH]; cbn; intros e H; [discriminate|].
  destruct (f a) as [b|e'] eqn:Ea.
  - destruct (mapM f l) as [bs|e'']; [discriminate|].
    injection H as <-. now apply IH.
  - injection H as <-. eapply Hf; eauto.
Qed.

Lemma mapM_raises {A B : Type} (f : A -> result B) (e0 : exn) (l : list A) :
  (forall a e, f a = Raise e -> e = e0) ->
  (exists a, In a l /\ f a = Raise e0) ->
  mapM f l = Raise e0.
Proof.
  intros Hf [a [Hin Ha]].
  destruct (mapM f l) as [bs|e] eqn:E.
  - apply mapM_Forall2 in E. exfalso. clear Hf.
    induction E as [|x b l bs Hx _ IH]; [destruct Hin|].
    destruct Hin as [->|Hin]; [congruence | auto].
  - f_equal. eapply mapM_raises_only; eauto.
Qed.

(** X8: one cell that is a number or a boolean, in the genres, keywords,
    cast or crew column of any row, makes [load_and_prepare_data] raise
    [AttributeError]: no frame is returned for the other rows either. *)
Theorem load_and_prepare_data_aborts_on_non_text_cell :
  forall (df : list raw_row) (r : raw_row),
    In r df ->
    safe_json_loads (raw_genres r) = Raise AttributeError
    \/ safe_json_loads (raw_keywords r) = Raise AttributeError
    \/ safe_json_loads (raw_cast r) = Raise AttributeError
    \/ safe_json_loads (raw_crew r) = Raise AttributeError ->
    load_and_prepare_data df = Raise AttributeError.
Proof.
  intros df r Hin Hbad.
  assert (col : forall (f : raw_row -> cell),
             safe_json_loads (f r) = Raise AttributeError ->
             mapM safe_json_loads (map f df) = Raise AttributeError).
  { intros f Hf. apply mapM_raises; [exact safe_json_loads_raises_only|].
    exists (f r). split; [now apply in_map | exact Hf]. }
  assert (only : forall (f : raw_row -> cell) e,
             mapM safe_json_loads (map f df) = Raise e -> e = AttributeError).
  { intros f. apply mapM_raises_only, safe_json_loads_raises_only. }
  unfold load_and_prepare_data.
  destruct (mapM safe_json_loads (map raw_genres df)) as [g|e] eqn:Eg;
    [|cbn; f_equal; eapply only; eauto].
  destruct (mapM safe_json_loads (map raw_keywords df)) as [k|e] eqn:Ek;
    [|cbn; f_equal; eapply only; eauto].
  destruct (mapM safe_json_loads (map raw_cast df)) as [c|e] eqn:Ec;
    [|cbn; f_equal; eapply only; eauto].
  destruct (mapM safe_json_loads (map raw_crew df)) as [w|e] eqn:Ew;
    [|cbn; f_equal; eapply only; eauto].
  exfalso. destruct Hbad as [H|[H|[H|H]]]; apply col in H; congruence.
Qed.

Lemma load_and_prepare_data_aborts_on_non_text_cell_witness :
  load_and_prepare_data
    (raw_sample ++ [mk_raw "Numbers" CNaN CNaN (CInt 0) CNaN])%list
  = Raise AttributeError.
Proof.
  apply (load_and_prepare_data_aborts_on_non_text_cell _
           (mk_raw "Numbers" CNaN CNaN (CInt 0) CNaN)).
  - apply in_or_app. right. now left.
  - right. right. left. reflexivity.
Defined.

Lemma mapM_map_const {A B C : Type} (f : B -> result C) (g : A -> B) (c : C)
    (l : list A) :
  (forall a, In a l -> f (g a) = Ok c) ->
  mapM f (map g l) = Ok (map (fun _ => c) l).
Proof.
  induction l as [|a l IH]; intro H; [reflexivity|].
  cbn. rewrite (H a (or_introl eq_refl)), IH; [reflexivity|].
  intros a' Ha'. apply H. now right.
Qed.

Lemma rows_const {A : Type} (k c d g : cleaned) (l : list A) :
  rows (map (fun _ => k) l) (map (fun _ => c) l) (map (fun _ => d) l)
       (map (fun _ => g) l)
  = map (fun _ => mk_row k c d g) l.
Proof.
  induction l as [|a l IH]; [reflexivity|]. cbn. now rewrite IH.
Qed.

Lemma engine_raises_when_no_token {U : Unicode} (stop_words : list string)
    (tfidf_weights : list string -> list (list string) -> matrix)
    (linear_kernel : matrix -> matrix -> matrix) (df : frame) :
  (forall c, In c (soup df) -> analyze stop_words (fillna c) = []) ->
  create_recommendation_engine stop_words tfidf_weights linear_kernel df
    = Raise ValueError.
Proof.
  intro H. unfold create_recommendation_engine, fit_transform, vocabulary.
  rewrite concat_all_nil; [reflexivity|].
  intros l Hin. apply in_map_iff in Hin. destruct Hin as [doc [<- Hdoc]].
  apply in_map_iff in Hdoc. destruct Hdoc as [c [<- Hc]]. now apply H.
Qed.

(** A merged frame without rows: line 50 raises. *)
Lemma load_and_prepare_data_without_rows {U : Unicode} :
  load_and_prepare_data [] = Raise ValueError.
Proof.
  reflexivity.
Qed.

(** X9: in a frame of at least one row, rows whose four structured cells
    are all missing or do not parse (each degrades to the empty list) do not
    stop [load_and_prepare_data]: every such row gets empty genres, keywords
    and cast, the empty director and a soup of three spaces.  A corpus of
    such rows alone cannot be indexed: the engine raises [ValueError] on
    it. *)
Theorem load_and_prepare_data_of_missing_fields :
  forall df : list raw_row,
    df <> [] ->
    Forall (fun r => safe_json_loads (raw_genres r) = Ok (VList [])
                     /\ safe_json_loads (raw_keywords r) = Ok (VList [])
                     /\ safe_json_loads (raw_cast r) = Ok (VList [])
                     /\ safe_json_loads (raw_crew r) = Ok (VList [])) df ->
    load_and_prepare_data df
      = Ok (mk_frame (map raw_title df)
              (map (fun _ => Tokens []) df) (map (fun _ => Tokens []) df)
              (map (fun _ => Tokens []) df) (map (fun _ => Token EmptyString) df)
              (map (fun _ => Some "   ") df))
    /\ forall stop_words tfidf_weights linear_kernel fr,
         load_and_prepare_data df = Ok fr ->
         create_recommendation_engine stop_words tfidf_weights linear_kernel fr
           = Raise ValueError.
Proof.
  intros df Hrows H. rewrite Forall_forall in H.
  assert (E : load_and_prepare_data df
              = Ok (mk_frame (map raw_title df)
                      (map (fun _ => Tokens []) df) (map (fun _ => Tokens []) df)
                      (map (fun _ => Tokens []) df) (map (fun _ => Token EmptyString) df)
                      (map (fun _ => Some "   ") df))).
  { unfold load_and_prepare_data.
    rewrite (mapM_map_const safe_json_loads raw_genres (VList []))
      by (intros r Hr; apply (H r Hr)).
    rewrite (mapM_map_const safe_json_loads raw_keywords (VList []))
      by (intros r Hr; apply (H r Hr)).
    rewrite (mapM_map_const safe_json_loads raw_cast (VList []))
      by (intros r Hr; apply (H r Hr)).
    rewrite (mapM_map_const safe_json_loads raw_crew (VList []))
      by (intros r Hr; apply (H r Hr)).
    cbn [bind].
    rewrite (mapM_map_const get_director (fun _ => VList []) (VStr EmptyString))
      by reflexivity.
    cbn [bind].
    rewrite (mapM_map_const names (fun _ => VList []) (VList [])) by reflexivity.
    rewrite (mapM_map_const names_top3 (fun _ => VList []) (VList [])) by reflexivity.
    cbn [bind].
    rewrite (mapM_map_const clean_data (fun _ => VList []) (Tokens [])) by reflexivity.
    rewrite (mapM_map_const clean_data (fun _ => VStr EmptyString) (Token EmptyString))
      by reflexivity.
    cbn [bind]. rewrite rows_const.
    rewrite apply_rows_not_empty
      by (destruct df; [now elim Hrows | discriminate]).
    rewrite (mapM_map_const create_soup
               (fun _ => mk_row (Tokens []) (Tokens []) (Token EmptyString) (Tokens []))
               "   ") by reflexivity.
    cbn [bind]. now rewrite map_map. }
  split; [exact E|].
  intros stop_words tfidf_weights linear_kernel fr Hfr.
  rewrite E in Hfr. injection Hfr as <-.
  apply engine_raises_when_no_token. cbn [soup].
  intros c Hc. apply in_map_iff in Hc. now destruct Hc as [r [<- _]].
Qed.

Lemma load_and_prepare_data_of_missing_fields_witness :
  load_and_prepare_data
    [mk_raw "Untitled" CNaN (CStr "not json") (CStr "{'name': ") CNaN;
     mk_raw "Lost" (CStr "") CNaN CNaN (CStr "[")]
  = Ok (mk_frame ["Untitled"; "Lost"] [Tokens []; Tokens []] [Tokens []; Tokens []]
          [Tokens []; Tokens []] [Token EmptyString; Token EmptyString]
          [Some "   "; Some "   "]).
Proof.
  refine (proj1 (load_and_prepare_data_of_missing_fields
    [mk_raw "Untitled" CNaN (CStr "not json") (CStr "{'name': ") CNaN;
     mk_raw "Lost" (CStr "") CNaN CNaN (CStr "[")] _ _));
    [discriminate | repeat constructor].
Defined.

(** *** [create_recommendation_engine]: when it succeeds, and its index *)

Lemma vocabulary_not_empty (docs : list (list string)) (doc : list string) (w : string) :
  In doc docs -> In w doc -> vocabulary docs <> [].
Proof.
  intros Hd Hw E.
  assert (Hin : In w (vocabulary docs)).
  { unfold vocabulary. apply nodup_In. apply in_concat. eauto. }
  rewrite E in Hin. destruct Hin.
Qed.

Lemma engine_ok_of_token {U : Unicode} (stop_words : list string)
    (tfidf_weights : list string -> list (list string) -> matrix)
    (linear_kernel : matrix -> matrix -> matrix) (df : frame)
    (c : option string) (w : string) :
  In c (soup df) ->
  In w (tokenize (lower (fillna c))) ->
  is_stop_word stop_words w = false ->
  create_recommendation_engine stop_words tfidf_weights linear_kernel df
    = Ok (linear_kernel
            (tfidf_weights
               (vocabulary (map (analyze stop_words) (map fillna (soup df))))
               (map (analyze stop_words) (map fillna (soup df))))
            (tfidf_weights
               (vocabulary (map (analyze stop_words) (map fillna (soup df))))
               (map (analyze stop_words) (map fillna (soup df)))),
          title_series df).
Proof.
  intros Hc Hw Hs.
  unfold create_recommendation_engine, fit_transform.
  rewrite drop_duplicates_title_series.
  assert (V : vocabulary (map (analyze stop_words) (map fillna (soup df))) <> []).
  { apply (vocabulary_not_empty _ (analyze stop_words (fillna c)) w).
    - apply in_map, in_map, Hc.
    - unfold analyze. apply filter_In. split; [exact Hw | now rewrite Hs]. }
  destruct (vocabulary _); [now elim V | reflexivity].
Qed.

(** X10: whatever the text operations of the interpreter (case folding and
    the tokenizer of the vectorizer): as soon as one soup of the corpus
    holds a token that is no stop word, engine initialization succeeds: the
    similarity matrix is the kernel of the TF-IDF weights of the analysed
    soups with themselves, and the index is the Series of all the rows,
    (title, row number) in row order. *)
Theorem engine_initializes :
  forall (U : Unicode) (stop_words : list string)
         (tfidf_weights : list string -> list (list string) -> matrix)
         (linear_kernel : matrix -> matrix -> matrix) (df : frame)
         (c : option string) (w : string),
    In c (soup df) ->
    In w (tokenize (lower (fillna c))) ->
    is_stop_word stop_words w = false ->
    let analysed := map (analyze stop_words) (map fillna (soup df)) in
    let tfidf_matrix := tfidf_weights (vocabulary analysed) analysed in
    create_recommendation_engine stop_words tfidf_weights linear_kernel df
      = Ok (linear_kernel tfidf_matrix tfidf_matrix, combine (title df) (index df)).
Proof.
  intros U stop_words tfidf_weights linear_kernel df c w Hc Hw Hs. cbn zeta.
  exact (engine_ok_of_token stop_words tfidf_weights linear_kernel df c w Hc Hw Hs).
Qed.

Lemma engine_initializes_witness :
  create_recommendation_engine some_stop_words (fun _ _ => []) (fun _ _ => scenario_sim)
    scenario
  = Ok (scenario_sim, [("A", 0); ("B", 1); ("C", 2)]).
Proof.
  refine (engine_initializes ascii_text some_stop_words (fun _ _ => []) (fun _ _ => scenario_sim)
            scenario (Some "hero xy d1 action") "hero" _ _ eq_refl).
  - now left.
  - vm_compute. now left.
Defined.

(** X11: whatever the text operations of the interpreter, the engine
    raises nothing but [ValueError], and raises it only when no soup of the
    corpus holds a token besides stop words. *)
Theorem engine_raises_only_on_empty_vocabulary :
  forall (U : Unicode) (stop_words : list string)
         (tfidf_weights : list string -> list (list string) -> matrix)
         (linear_kernel : matrix -> matrix -> matrix) (df : frame) (e : exn),
    create_recommendation_engine stop_words tfidf_weights linear_kernel df = Raise e ->
    e = ValueError
    /\ forall c w, In c (soup df) -> In w (tokenize (lower (fillna c))) ->
                   is_stop_word stop_words w = true.
Proof.
  intros U stop_words tfidf_weights linear_kernel df e H. split.
  - unfold create_recommendation_engine, fit_transform in H.
    destruct (vocabulary _); cbn in H; congruence.
  - intros c w Hc Hw. destruct (is_stop_word stop_words w) eqn:Hs; [reflexivity|].
    pose proof (engine_ok_of_token stop_words tfidf_weights linear_kernel df c w
                  Hc Hw Hs) as E.
    congruence.
Qed.

Lemma engine_raises_only_on_empty_vocabulary_witness :
  ValueError = ValueError
  /\ forall c w, In c (soup stop_words_only) -> In w (tokenize (lower (fillna c))) ->
                 is_stop_word some_stop_words w = true.
Proof.
  exact (engine_raises_only_on_empty_vocabulary ascii_text some_stop_words (fun _ _ => [])
           (fun _ _ => []) stop_words_only ValueError eq_refl).
Defined.

(** X12: the index of a successful initialization mirrors the corpus: its
    labels are the titles in row order, and looking a title up gives
    exactly the numbers of the rows that carry it (none for an unknown
    title, several for a repeated one). *)
Theorem engine_index_mirrors_corpus :
  forall (stop_words : list string)
         (tfidf_weights : list string -> list (list string) -> matrix)
         (linear_kernel : matrix -> matrix -> matrix) (df : frame)
         (cosine_sim : matrix) (indices : series),
    create_recommendation_engine stop_words tfidf_weights linear_kernel df
      = Ok (cosine_sim, indices) ->
    keys indices = title df
    /\ (forall t i, In i (getitem indices t) <-> nth_error (title df) i = Some t)
    /\ (forall t, contains indices t = true <-> In t (title df)).
Proof.
  intros stop_words tfidf_weights linear_kernel df cosine_sim indices H.
  assert (E : indices = title_series df).
  { unfold create_recommendation_engine in H.
    destruct (fit_transform _ _ _) as [m|]; cbn in H; [|discriminate].
    injection H as _ <-. apply drop_duplicates_title_series. }
  subst indices. split; [apply keys_title_series|]. split.
  - intros t i. apply getitem_title_series.
  - intro t. rewrite contains_true_iff, keys_title_series. reflexivity.
Qed.

Lemma engine_index_mirrors_corpus_witness :
  keys [("Batman", 0); ("Batman", 1)] = title remakes
  /\ (forall t i, In i (getitem [("Batman", 0); ("Batman", 1)] t)
                  <-> nth_error (title remakes) i = Some t)
  /\ (forall t, contains [("Batman", 0); ("Batman", 1)] t = true <-> In t (title remakes)).
Proof.
  exact (engine_index_mirrors_corpus some_stop_words (fun _ _ => [])
           (fun _ _ => remakes_sim) remakes remakes_sim
           [("Batman", 0); ("Batman", 1)] eq_refl).
Defined.

(** *** [get_recommendations]: what a query can return *)

Lemma square_for_scenario : square_for scenario scenario_sim.
Proof.
  split; [reflexivity | repeat constructor].
Qed.

(** X13: on the index and an N x N matrix the engine built, a query for a
    title that one row carries returns titles and no error: the titles of
    the rows ranked second to eleventh among all N rows by score
    descending, equal scores by row number; so min(10, N-1) titles, none
    for a corpus of one movie. *)
Theorem get_recommendations_second_to_eleventh :
  forall (df : frame) (cosine_sim : matrix) (t : string) (idx : nat),
    square_for df cosine_sim ->
    getitem (drop_duplicates (title_series df)) t = [idx] ->
    exists scores titles,
      nth_error cosine_sim idx = Some scores
      /\ nth_error (title df) idx = Some t
      /\ get_recommendations t cosine_sim (drop_duplicates (title_series df)) df
         = Ok (Recommendations titles)
      /\ Permutation (sorted_desc (enumerate scores)) (enumerate scores)
      /\ StronglySorted ranked_before (sorted_desc (enumerate scores))
      /\ Forall2 (fun x t' => nth_error (title df) (fst x) = Some t')
           (firstn 10 (skipn 1 (sorted_desc (enumerate scores)))) titles
      /\ List.length titles = Nat.min 10 (List.length (title df) - 1).
Proof.
  exact get_recommendations_ranked.
Qed.

Lemma get_recommendations_second_to_eleventh_witness :
  exists scores titles,
    nth_error scenario_sim 0 = Some scores
    /\ nth_error (title scenario) 0 = Some "A"
    /\ get_recommendations "A" scenario_sim (drop_duplicates (title_series scenario))
         scenario = Ok (Recommendations titles)
    /\ Permutation (sorted_desc (enumerate scores)) (enumerate scores)
    /\ StronglySorted ranked_before (sorted_desc (enumerate scores))
    /\ Forall2 (fun x t' => nth_error (title scenario) (fst x) = Some t')
         (firstn 10 (skipn 1 (sorted_desc (enumerate scores)))) titles
    /\ List.length titles = Nat.min 10 (List.length (title scenario) - 1).
Proof.
  exact (get_recommendations_second_to_eleventh scenario scenario_sim "A" 0
           square_for_scenario eq_refl).
Defined.

(** X14: when, in the row of the query movie, its own score is larger than
    the score of every earlier row and at least the score of every later
    row, the query movie is the entry the slice drops: no title of the
    answer is read from the query row. *)
Theorem get_recommendations_excludes_top_ranked_query :
  forall (df : frame) (cosine_sim : matrix) (t : string) (idx : nat)
         (scores : list Q) (q : Q),
    square_for df cosine_sim ->
    getitem (drop_duplicates (title_series df)) t = [idx] ->
    nth_error cosine_sim idx = Some scores ->
    nth_error scores idx = Some q ->
    (forall j q', nth_error scores j = Some q' -> j <> idx ->
                  ranked_before (idx, q) (j, q')) ->
    exists positions titles,
      get_recommendations t cosine_sim (drop_duplicates (title_series df)) df
        = Ok (Recommendations titles)
      /\ Forall2 (fun i t' => nth_error (title df) i = Some t') positions titles
      /\ ~ In idx positions.
Proof.
  intros df cosine_sim t idx scores q Hsq Hg Hrow Hq Hfirst.
  destruct (get_recommendations_ranked df cosine_sim t idx Hsq Hg)
    as (scores' & titles & Hrow' & _ & Hr & _ & _ & F & _).
  rewrite Hrow in Hrow'. injection Hrow' as <-.
  exists (map fst (slice_1_11 (sorted_desc (enumerate scores)))), titles.
  split; [exact Hr|]. split.
  - clear -F. induction F; cbn; constructor; auto.
  - apply (query_row_dropped_when_first scores idx q Hq Hfirst).
Qed.

Lemma get_recommendations_excludes_top_ranked_query_witness :
  exists positions titles,
    get_recommendations "C" scenario_sim (drop_duplicates (title_series scenario))
      scenario = Ok (Recommendations titles)
    /\ Forall2 (fun i t' => nth_error (title scenario) i = Some t') positions titles
    /\ ~ In 2 positions.
Proof.
  refine (get_recommendations_excludes_top_ranked_query scenario scenario_sim "C" 2
            [0; 0; 1]%Q 1%Q square_for_scenario eq_refl eq_refl eq_refl _).
  intros j q' Hj Hne. left. cbn.
  destruct j as [|[|[|j]]]; cbn in Hj.
  - injection Hj as <-. reflexivity.
  - injection Hj as <-. reflexivity.
  - now elim Hne.
  - destruct j; discriminate Hj.
Defined.

Lemma rank_repeated_title {U : Unicode} (df : frame) (cosine_sim : matrix) (t : string) (i j : nat) :
  square_for df cosine_sim ->
  nth_error (title df) i = Some t ->
  nth_error (title df) j = Some t ->
  i <> j ->
  get_recommendations t cosine_sim (drop_duplicates (title_series df)) df
    = Raise ValueError.
Proof.
  intros [Hrows _] Hi Hj Hne. rewrite drop_duplicates_title_series.
  unfold get_recommendations.
  assert (C : contains (title_series df) t = true).
  { apply contains_true_iff. rewrite keys_title_series. eapply nth_error_In; eauto. }
  rewrite C. cbn [negb]. unfold rank.
  pose proof (proj2 (getitem_title_series df t i) Hi) as Ii.
  pose proof (proj2 (getitem_title_series df t j) Hj) as Ij.
  assert (R : forallb (fun k => (k <? List.length cosine_sim)%nat)
                (getitem (title_series df) t) = true).
  { apply forallb_forall. intros k Hk. apply getitem_title_series in Hk.
    apply Nat.ltb_lt. rewrite Hrows. apply nth_error_Some. congruence. }
  destruct (getitem (title_series df) t) as [|a [|b rest]].
  - destruct Ii.
  - destruct Ii as [<-|[]], Ij as [<-|[]]. now elim Hne.
  - now rewrite R.
Qed.

(** X15: on the index and an N x N matrix the engine built, a query for a
    title that two or more rows carry raises [ValueError]; no such title
    can be asked about. *)
Theorem get_recommendations_raises_on_repeated_title :
  forall (df : frame) (cosine_sim : matrix) (t : string) (i j : nat),
    square_for df cosine_sim ->
    nth_error (title df) i = Some t ->
    nth_error (title df) j = Some t ->
    i <> j ->
    get_recommendations t cosine_sim (drop_duplicates (title_series df)) df
      = Raise ValueError.
Proof.
  exact rank_repeated_title.
Qed.

Lemma get_recommendations_raises_on_repeated_title_witness :
  get_recommendations "Batman" remakes_sim (drop_duplicates (title_series remakes))
    remakes = Raise ValueError.
Proof.
  refine (get_recommendations_raises_on_repeated_title remakes remakes_sim "Batman"
            0 1 _ eq_refl eq_refl _).
  - split; [reflexivity | repeat constructor].
  - discriminate.
Defined.

Lemma rank_recommendations (t : string) (cosine_sim : matrix) (indices : series)
    (df : frame) (l : list string) :
  rank t cosine_sim indices df = Ok (Recommendations l) ->
  List.length l <= 10 /\ Forall (fun t' => In t' (title df)) l.
Proof.
  unfold rank.
  destruct (getitem indices t) as [|idx [|idx' rest]]; [discriminate| |].
  - destruct (nth_error cosine_sim idx) as [scores|]; [|discriminate].
    destruct (iloc _ _) as [titles|] eqn:E; cbn; [|discriminate].
    intros [= <-]. unfold iloc in E. apply mapM_Forall2 in E. split.
    + apply Forall2_length_eq in E. rewrite <- E, length_map, slice_1_11_length. lia.
    + eapply Forall2_right; [|exact E]. cbn. intros i t' H.
      destruct (nth_error (title df) i) eqn:En; [|discriminate].
      injection H as <-. eapply nth_error_In; eauto.
  - destruct (forallb _ _); discriminate.
Qed.

(** X16: whatever the title, the matrix, the index and the frame: when
    [get_recommendations] returns a list, it has ten titles at most and
    each of them is a title of the frame. *)
Theorem get_recommendations_at_most_ten_corpus_titles :
  forall (title0 : string) (cosine_sim : matrix) (indices : series) (df : frame)
         (l : list string),
    get_recommendations title0 cosine_sim indices df = Ok (Recommendations l) ->
    List.length l <= 10 /\ Forall (fun t => In t (title df)) l.
Proof.
  intros title0 cosine_sim indices df l. unfold get_recommendations.
  destruct (negb (contains indices title0)); [|apply rank_recommendations].
  destruct (filter _ _) as [|t ts]; [discriminate | apply rank_recommendations].
Qed.

Lemma get_recommendations_at_most_ten_corpus_titles_witness :
  List.length ["B"; "C"] <= 10 /\ Forall (fun t => In t (title scenario)) ["B"; "C"].
Proof.
  exact (get_recommendations_at_most_ten_corpus_titles "a" scenario_sim
           (title_series scenario) scenario ["B"; "C"] eq_refl).
Defined.

(** *** The id columns *)

Lemma has_column_In (columns : list string) (col : string) :
  has_column columns col = true <-> In col columns.
Proof.
  unfold has_column. rewrite existsb_exists. split.
  - intros [c [Hin E]]. apply String.eqb_eq in E. now subst c.
  - intro H. exists col. split; [exact H | apply String.eqb_refl].
Qed.

(** X17: the id column of the movies file is chosen by the fixed order id,
    movie_id, tmdbId (not by the order of the columns), and the two files
    pass the checks of lines 16-27 exactly when the movies file has one of
    the three and the credits file has a column named movie_id. *)
Theorem check_id_columns_passes_iff :
  forall movies_columns credits_columns : list string,
    (check_id_columns movies_columns credits_columns = None <->
     (In "id" movies_columns \/ In "movie_id" movies_columns
      \/ In "tmdbId" movies_columns)
     /\ In "movie_id" credits_columns)
    /\ (movie_id_col movies_columns = Some "id" <-> In "id" movies_columns)
    /\ (movie_id_col movies_columns = Some "movie_id" <->
        ~ In "id" movies_columns /\ In "movie_id" movies_columns)
    /\ (movie_id_col movies_columns = Some "tmdbId" <->
        ~ In "id" movies_columns /\ ~ In "movie_id" movies_columns
        /\ In "tmdbId" movies_columns).
Proof.
  intros mc cc. unfold check_id_columns, movie_id_col, possible_movie_id_cols.
  cbn [find].
  pose proof (has_column_In mc "id") as H1.
  pose proof (has_column_In mc "movie_id") as H2.
  pose proof (has_column_In mc "tmdbId") as H3.
  pose proof (has_column_In cc "movie_id") as H4.
  destruct (has_column mc "id"), (has_column mc "movie_id"),
    (has_column mc "tmdbId"), (has_column cc "movie_id"); cbn;
    intuition (try discriminate; try congruence).
Qed.

(** *** The chat loop *)

Lemma chat_loop_step {U : Unicode} (cosine_sim : matrix) (indices : series) (movie_data : frame)
    (line : string) (rest rest' : list string) :
  chat_loop cosine_sim indices movie_data rest
    = chat_loop cosine_sim indices movie_data rest' ->
  chat_loop cosine_sim indices movie_data (line :: rest)
    = chat_loop cosine_sim indices movie_data (line :: rest').
Proof.
  intro H. cbn [chat_loop]. now rewrite H.
Qed.

(** X18: nothing typed after a line that says quit or exit (in any letter
    case, with blanks around it) is read: the run is the same as if the
    input ended there. *)
Theorem chat_loop_stops_at_quit :
  forall (cosine_sim : matrix) (indices : series) (movie_data : frame)
         (before after : list string) (line : string),
    is_quit (strip line) = true ->
    chat_loop cosine_sim indices movie_data (before ++ line :: after)%list
      = chat_loop cosine_sim indices movie_data (before ++ [line])%list.
Proof.
  intros cosine_sim indices movie_data before after line Hq.
  induction before as [|l before IH]; cbn [app].
  - cbn [chat_loop]. now rewrite Hq.
  - now apply chat_loop_step.
Qed.

Lemma chat_loop_stops_at_quit_witness :
  is_quit (strip "  QuIt ") = true
  /\ chat_loop scenario_sim (title_series scenario) scenario
       (["a"] ++ "  QuIt " :: ["B"; "exit"])%list
     = chat_loop scenario_sim (title_series scenario) scenario (["a"] ++ ["  QuIt "])%list.
Proof.
  split; [reflexivity|].
  exact (chat_loop_stops_at_quit scenario_sim (title_series scenario) scenario
           ["a"] ["B"; "exit"] "  QuIt " eq_refl).
Defined.

(** X19: whatever the text operations of the interpreter (stripping and
    case folding), the loop returns only through a quit line: when it
    returns, some line says quit or exit once stripped and lower-cased, no
    line before it does, and the goodbye is the last thing written, right
    after the prompt that line answered.  (With no such line the run ends in
    an exception: that of a query, or [EOFError] at the end of the
    input.) *)
Theorem chat_loop_returns_only_on_quit :
  forall (U : Unicode) (cosine_sim : matrix) (indices : series) (movie_data : frame)
         (inputs : list string),
    snd (chat_loop cosine_sim indices movie_data inputs) = Returned ->
    exists before line after written,
      inputs = (before ++ line :: after)%list
      /\ is_quit (strip line) = true
      /\ Forall (fun l => is_quit (strip l) = false) before
      /\ fst (chat_loop cosine_sim indices movie_data inputs)
         = (written ++ [prompt; goodbye])%list.
Proof.
  intros U cosine_sim indices movie_data inputs.
  induction inputs as [|l rest IH]; cbn [chat_loop]; [discriminate|].
  destruct (is_quit (strip l)) eqn:Hq.
  - intros _. exists [], l, rest, []. repeat split; auto.
  - assert (K : forall (o : list out),
               snd (chat_loop cosine_sim indices movie_data rest) = Returned ->
               exists before line after written,
                 (l :: rest = before ++ line :: after)%list
                 /\ is_quit (strip line) = true
                 /\ Forall (fun l => is_quit (strip l) = false) before
                 /\ (o ++ fst (chat_loop cosine_sim indices movie_data rest)
                     = written ++ [prompt; goodbye])%list).
    { intros o H. destruct (IH H) as (before & line & after & written & E & Q & F & W).
      exists (l :: before), line, after, (o ++ written)%list.
      repeat split; auto.
      - cbn. now rewrite E.
      - rewrite W. now rewrite app_assoc. }
    destruct (negb (is_empty (strip l))).
    + destruct (get_recommendations _ _ _ _) as [[titles|text]|e]; [| |discriminate];
        destruct (chat_loop cosine_sim indices movie_data rest) as [o e] eqn:E;
        cbn [fst snd] in *; intro H.
      * destruct (K (prompt :: great (strip l) :: numbered 0 titles)%list H)
          as (b & x & a & w & H1 & H2 & H3 & H4).
        exists b, x, a, w. repeat split; auto.
      * destruct (K [prompt; Print text] H) as (b & x & a & w & H1 & H2 & H3 & H4).
        exists b, x, a, w. repeat split; auto.
    + destruct (chat_loop cosine_sim indices movie_data rest) as [o e] eqn:E;
        cbn [fst snd] in *; intro H.
      destruct (K [prompt; Print "Please enter a movie title."] H)
        as (b & x & a & w & H1 & H2 & H3 & H4).
      exists b, x, a, w. repeat split; auto.
Qed.

Lemma chat_loop_returns_only_on_quit_witness :
  exists before line after written,
    ["zz"; ""; "Exit"; "A"] = (before ++ line :: after)%list
    /\ is_quit (strip line) = true
    /\ Forall (fun l => is_quit (strip l) = false) before
    /\ fst (chat_loop scenario_sim (title_series scenario) scenario
              ["zz"; ""; "Exit"; "A"])
       = (written ++ [prompt; goodbye])%list.
Proof.
  exact (chat_loop_returns_only_on_quit ascii_text scenario_sim (title_series scenario) scenario
           ["zz"; ""; "Exit"; "A"] eq_refl).
Defined.

(** X20: whatever the text operations of the interpreter, on the index and
    an N x N matrix the engine built, typing a line that, once stripped, is
    a title two or more rows carry ends the chat: the [ValueError] of the
    query is not caught, nothing is written after the prompt and the lines
    typed after it are not read. *)
Theorem chat_loop_raises_on_repeated_title :
  forall (U : Unicode) (df : frame) (cosine_sim : matrix) (line : string) (rest : list string)
         (i j : nat),
    square_for df cosine_sim ->
    is_quit (strip line) = false ->
    nth_error (title df) i = Some (strip line) ->
    nth_error (title df) j = Some (strip line) ->
    i <> j ->
    strip line <> EmptyString ->
    chat_loop cosine_sim (drop_duplicates (title_series df)) df (line :: rest)
      = ([prompt], Raised ValueError).
Proof.
  intros U df cosine_sim line rest i j Hsq Hq Hi Hj Hne Hs.
  cbn [chat_loop]. rewrite Hq.
  destruct (strip line) as [|c s] eqn:E; [now elim Hs|]. cbn [is_empty negb].
  now rewrite (rank_repeated_title df cosine_sim _ i j Hsq Hi Hj Hne).
Qed.

Lemma chat_loop_raises_on_repeated_title_witness :
  chat_loop remakes_sim (drop_duplicates (title_series remakes)) remakes
    [" Batman"; "quit"]
  = ([prompt], Raised ValueError).
Proof.
  refine (chat_loop_raises_on_repeated_title ascii_text remakes remakes_sim " Batman" ["quit"]
            0 1 _ eq_refl eq_refl eq_refl _ _).
  - split; [reflexivity | repeat constructor].
  - discriminate.
  - discriminate.
Defined.

(** *** [chatbot] *)

Lemma engine_raises_ValueError {U : Unicode} (stop_words : list string)
    (tfidf_weights : list string -> list (list string) -> matrix)
    (linear_kernel : matrix -> matrix -> matrix) (df : frame) (e : exn) :
  create_recommendation_engine stop_words tfidf_weights linear_kernel df = Raise e ->
  e = ValueError.
Proof.
  unfold create_recommendation_engine, fit_transform.
  destruct (vocabulary _); cbn; congruence.
Qed.

(** X21: with a loaded corpus of fewer than five movies [chatbot] never
    reaches the chat: after the two welcome lines (and whatever the load
    printed) it ends in [ValueError], from the engine or from
    [random.sample], whatever the user would type. *)
Theorem chatbot_needs_five_titles :
  forall (stop_words : list string)
         (tfidf_weights : list string -> list (list string) -> matrix)
         (linear_kernel : matrix -> matrix -> matrix)
         (sample : list string -> list string)
         (printed : list out) (movie_data : frame) (inputs : list string),
    List.length (title movie_data) < 5 ->
    chatbot stop_words tfidf_weights linear_kernel sample
      (printed, Ok (Some movie_data)) inputs
    = ((welcome ++ printed)%list, Raised ValueError).
Proof.
  intros stop_words tfidf_weights linear_kernel sample printed movie_data inputs H.
  unfold chatbot.
  destruct (create_recommendation_engine _ _ _ _) as [[cosine_sim indices]|e] eqn:E.
  - apply Nat.ltb_lt in H. now rewrite H.
  - now rewrite (engine_raises_ValueError _ _ _ _ _ E).
Qed.

Lemma chatbot_needs_five_titles_witness :
  chatbot some_stop_words (fun _ _ => []) (fun _ _ => scenario_sim) (firstn 5)
    ([], Ok (Some scenario)) ["A"; "quit"]
  = ((welcome ++ [])%list, Raised ValueError).
Proof.
  refine (chatbot_needs_five_titles some_stop_words (fun _ _ => [])
            (fun _ _ => scenario_sim) (firstn 5) [] scenario ["A"; "quit"] _).
  cbn. lia.
Defined.
